(** * DocWriter: the document-write subsystem of the parser

    A shallow embedding of [parser/docwriter/docwriter.go] and the
    properties its specification states about it.

    Layout: the data model and the operations first (in the order of the
    Go file), then the interleaving semantics of the goroutines, then the
    theorems. *)

From Stdlib Require Import ZArith List String Ascii Bool Lia Arith.
From Stdlib Require Import Permutation.
Import ListNotations.
Open Scope string_scope.
Open Scope Z_scope.

(* ================================================================= *)
(** ** Go strings: [strings.Index] and [strings.Contains]             *)
(* ================================================================= *)

Module GoStrings.

(** [s] starts with [p], byte for byte (Go's [strings.HasPrefix]). *)
Fixpoint HasPrefix (s p : string) {struct p} : bool :=
  match p with
  | EmptyString => true
  | String c p' =>
      match s with
      | EmptyString => false
      | String d s' => Ascii.eqb d c && HasPrefix s' p'
      end
  end.

(** Offset of the first occurrence of [substr] in [s], counted from
    [from]; [-1] when there is none ([strings.Index]). *)
Fixpoint IndexFrom (from : Z) (s substr : string) : Z :=
  if HasPrefix s substr then from
  else match s with
       | EmptyString => -1
       | String _ s' => IndexFrom (from + 1) s' substr
       end.

Definition Index (s substr : string) : Z := IndexFrom 0 s substr.

(** [strings.Contains(s, substr)] is [Index(s, substr) >= 0]. *)
Definition Contains (s substr : string) : bool := 0 <=? Index s substr.

(** The mathematical reading: [p] occurs inside [s]. *)
Definition substring_of (p s : string) : Prop :=
  exists a b : string, s = a ++ p ++ b.

End GoStrings.

(* ================================================================= *)
(** ** Data                                                           *)
(* ================================================================= *)

(** The payload is an [interface{}] the writer never inspects; it is kept
    as an opaque serialised value. *)
Definition Payload := string.

(** [Document] holds one item to be written to a database. *)
Record Document : Type := mkDocument {
  Doc  : Payload;   (* thing to write *)
  DB   : string;    (* DB to write to *)
  Coll : string     (* collection to write to *)
}.

(** A Go slice of strings is either [nil] or a (possibly empty) sequence. *)
Definition StringSlice := option (list string).

(** A Go [error]: [None] is [nil], [Some msg] an error whose [Error()]
    is [msg]. *)
Definition error := option string.

(* ================================================================= *)
(** ** The content filter                                             *)
(* ================================================================= *)

(** The [for count := range whitelist] loop of [isWhitelisted]. *)
Fixpoint isWhitelisted_loop (whitelist : list string) (url : string) : bool :=
  match whitelist with
  | [] => false
  | p :: rest =>
      if GoStrings.Contains url p then true
      else isWhitelisted_loop rest url
  end.

Definition isWhitelisted (whitelist : StringSlice) (url : string) : bool :=
  match whitelist with
  | None => false
  | Some wl => isWhitelisted_loop wl url
  end.

(* ================================================================= *)
(** ** What a worker does to the outside world                        *)
(* ================================================================= *)

(** The database driver and the logger are external.  Each call a worker
    makes on them while it handles one document is recorded, in order. *)
Inductive Event : Type :=
| EvInsert (doc : Document) (res : error)
    (* ssn.DB(doc.DB).C(doc.Coll).Insert(doc.Doc), with its result *)
| EvSleep (secs : Z)
    (* time.Sleep(time.Duration(secs) * time.Second) *)
| EvDump (towrite : Payload)
    (* spew.Dump(towrite) *)
| EvLogError (msg : string) (falloff : option Z)
    (* log.WithFields{"error": msg [, "falloff": i]}.Error("Database write failure") *)
| EvLogInfo (msg : string).
    (* log.Info(msg) *)

(** The result of the [k]-th [Insert] call made while one document is
    handled is chosen by the database: [ins k]. *)
Definition InsertResults := nat -> error.

(** *** Observations on a list of events *)

Definition is_insert (e : Event) : bool :=
  match e with EvInsert _ _ => true | _ => false end.

Definition is_insert_ok (e : Event) : bool :=
  match e with EvInsert _ None => true | _ => false end.

Definition is_insert_failed (e : Event) : bool :=
  match e with EvInsert _ (Some _) => true | _ => false end.

Definition is_error_log (e : Event) : bool :=
  match e with EvLogError _ _ => true | _ => false end.

Definition count (p : Event -> bool) (evs : list Event) : nat :=
  List.length (filter p evs).

(** Number of [Insert] calls, of successful ones, of failed ones. *)
Definition attempts   (evs : list Event) : nat := count is_insert evs.
Definition successes  (evs : list Event) : nat := count is_insert_ok evs.
Definition failures   (evs : list Event) : nat := count is_insert_failed evs.
Definition error_logs (evs : list Event) : nat := count is_error_log evs.

(** The sleeps, in order, and their sum. *)
Fixpoint sleeps (evs : list Event) : list Z :=
  match evs with
  | [] => []
  | EvSleep n :: rest => n :: sleeps rest
  | _ :: rest => sleeps rest
  end.

Definition total_sleep (evs : list Event) : Z := fold_right Z.add 0 (sleeps evs).

(** The [falloff] fields of the error entries the retry engine wrote. *)
Fixpoint falloffs (evs : list Event) : list Z :=
  match evs with
  | [] => []
  | EvLogError _ (Some i) :: rest => i :: falloffs rest
  | _ :: rest => falloffs rest
  end.

(* ================================================================= *)
(** ** The retry engine: [expFalloff]                                 *)
(* ================================================================= *)

(** One pass of the loop body for each remaining value of [i]; [k] is the
    number of [Insert] calls already made for this document.  The [return]
    inside the loop ends the recursion. *)
Fixpoint expFalloff_loop (idxs : list Z) (doc : Document)
         (ins : InsertResults) (k : nat) : list Event :=
  match idxs with
  | [] => []
  | i :: rest =>
      EvSleep (i * i) ::
      EvInsert doc (ins k) ::
      match ins k with
      | None => [EvLogInfo "Write succeeded"]
      | Some msg =>
          EvLogError msg (Some i) :: expFalloff_loop rest doc ins (S k)
      end
  end.

(** [for i := 0; i < 5; i++]. *)
Definition falloff_indices : list Z := [0; 1; 2; 3; 4].

Definition expFalloff (doc : Document) (ins : InsertResults) (k : nat)
  : list Event :=
  expFalloff_loop falloff_indices doc ins k.

(* ================================================================= *)
(** ** Go channels of documents                                       *)
(* ================================================================= *)

Module Chan.

Record t : Type := mk {
  buf    : list Document;   (* queued elements, oldest first *)
  cap    : nat;             (* capacity given to [make] *)
  closed : bool
}.

Definition make (n : nat) : t := mk [] n false.

Definition len (c : t) : nat := List.length (buf c).

(** [c <- doc]: panics on a closed channel, blocks on a full one. *)
Inductive send_result : Type :=
| Sent (c' : t)
| SendBlocks
| SendPanics.

Definition send (c : t) (doc : Document) : send_result :=
  if closed c then SendPanics
  else if (len c <? cap c)%nat then Sent (mk (buf c ++ [doc]) (cap c) (closed c))
  else SendBlocks.

(** [doc, ok := <-c]: the oldest element when there is one; [ok = false]
    once the channel is closed and empty; blocks otherwise. *)
Inductive recv_result : Type :=
| Received (doc : Document) (c' : t)
| RecvClosed
| RecvBlocks.

Definition recv (c : t) : recv_result :=
  match buf c with
  | doc :: rest => Received doc (mk rest (cap c) (closed c))
  | [] => if closed c then RecvClosed else RecvBlocks
  end.

(** [close(c)]: panics when [c] is closed already. *)
Inductive close_result : Type :=
| Closed (c' : t)
| ClosePanics.

Definition close (c : t) : close_result :=
  if closed c then ClosePanics else Closed (mk (buf c) (cap c) true).

End Chan.

(* ================================================================= *)
(** ** The writer                                                     *)
(* ================================================================= *)

(** The session [d.Ssn] that all the workers share, as far as this
    package can tell its states apart: open from [New] on, closed once a
    worker has called [d.Ssn.Close()] on it (line 164).  The driver
    panics with "Session already closed" when [Copy] is called on a
    closed session; closing a closed session does nothing. *)
Inductive Session : Type :=
| SessionOpen
| SessionClosed.

(** The fields of [DocWriter] the code of this package reads or writes.
    [log] is the handle on the logger: the inserts and the error and info
    entries of an iteration are recorded as [Event]s (the [Debug] lines
    and the [Info] line at the exit of the loop are not); the sessions
    made by [d.Ssn.Copy()] live for one insert and are not kept; [dblock]
    makes the registry section of [Write] one indivisible step.  [Meta]
    is the handle on the metadata registry: the names [AddNewDB] has been
    called with, in call order. *)
Record DocWriter : Type := mkDocWriter {
  Ssn       : Session;        (* MongoDB session, shared by the workers *)
  pre       : string;         (* prefix to the database *)
  ImportWl  : bool;           (* flag to import whitelist *)
  Whitelist : StringSlice;    (* the whitelist *)
  wchan     : Chan.t;         (* document channel *)
  wg        : Z;              (* counter of the WaitGroup *)
  Meta      : list string;    (* AddNewDB calls *)
  Databases : list string;    (* track the db states *)
  started   : bool            (* track if we've started the writer *)
}.

(** The part of [config.Resources] that [New] reads. *)
Record Resources : Type := mkResources {
  DBPrefix        : string;
  ImportWhitelist : bool;
  CfgWhitelist    : StringSlice
}.

(** [New(cfg, mdb)]; [dbs] is what [mdb.GetDatabases()] returned, and the
    session of [cfg] is open (its [Copy] returns). *)
Definition New (cfg : Resources) (dbs : list string) : DocWriter :=
  {| Ssn       := SessionOpen;           (* cfg.Session.Copy() *)
     pre       := DBPrefix cfg;
     ImportWl  := ImportWhitelist cfg;
     Whitelist := CfgWhitelist cfg;
     wchan     := Chan.make 5000;
     wg        := 0;
     Meta      := [];
     Databases := dbs;
     started   := false |}.

Definition IsStarted (d : DocWriter) : bool := started d.

Definition set_Ssn (x : Session) (d : DocWriter) : DocWriter :=
  mkDocWriter x (pre d) (ImportWl d) (Whitelist d) (wchan d) (wg d) (Meta d)
              (Databases d) (started d).

Definition set_wchan (c : Chan.t) (d : DocWriter) : DocWriter :=
  mkDocWriter (Ssn d) (pre d) (ImportWl d) (Whitelist d) c (wg d) (Meta d)
              (Databases d) (started d).

Definition set_wg (n : Z) (d : DocWriter) : DocWriter :=
  mkDocWriter (Ssn d) (pre d) (ImportWl d) (Whitelist d) (wchan d) n (Meta d)
              (Databases d) (started d).

Definition set_started (b : bool) (d : DocWriter) : DocWriter :=
  mkDocWriter (Ssn d) (pre d) (ImportWl d) (Whitelist d) (wchan d) (wg d)
              (Meta d) (Databases d) b.

(** *** The registry section of [Write] (between [Lock] and [Unlock]) *)

(** [for _, aval := range d.Databases { if aval == doc.DB { seen = true } }] *)
Fixpoint seen_loop (dbs : list string) (name : string) (seen : bool) : bool :=
  match dbs with
  | [] => seen
  | aval :: rest =>
      seen_loop rest name (if String.eqb aval name then true else seen)
  end.

(** [d.Meta.AddNewDB(name)] followed by the [append]. *)
Definition add_database (name : string) (d : DocWriter) : DocWriter :=
  mkDocWriter (Ssn d) (pre d) (ImportWl d) (Whitelist d) (wchan d) (wg d)
              (Meta d ++ [name]) (Databases d ++ [name]) (started d).

(** The document with its prefixed database name, and the writer after the
    registry section. *)
Definition Write_register (doc : Document) (d : DocWriter)
  : Document * DocWriter :=
  let doc' := mkDocument (Doc doc) (pre d ++ DB doc) (Coll doc) in
  let seen := seen_loop (Databases d) (DB doc') false in
  if negb seen then (doc', add_database (DB doc') d) else (doc', d).

(* ================================================================= *)
(** ** One iteration of [writeLoop], after the receive                *)
(* ================================================================= *)

(** The subject the loop hands to the filter. *)
Definition filter_subject : string := "This is a cool wholesome string".

(** Lines 144-150: the first insert, or none.  Returns the value of the
    variable [err] afterwards, the events, and the number of [Insert]
    calls made. *)
Definition writeLoop_insert (d : DocWriter) (err : error) (doc : Document)
           (ins : InsertResults) : error * list Event * nat :=
  if isWhitelisted (Whitelist d) filter_subject then
    if ImportWl d then (ins 0%nat, [EvInsert doc (ins 0%nat)], 1%nat)
    else (err, [], 0%nat)
  else (ins 0%nat, [EvInsert doc (ins 0%nat)], 1%nat).

(** Lines 151-160: what follows when [err != nil]. *)
Definition writeLoop_onerror (err : error) (doc : Document)
           (ins : InsertResults) (k : nat) : list Event :=
  match err with
  | None => []
  | Some msg =>
      ((if GoStrings.Contains msg "ObjectIDs" then [EvDump (Doc doc)] else [])
       ++ EvLogError msg None
       :: expFalloff doc ins k)%list
  end.

(** The whole iteration: [err] is the loop-carried variable declared before
    the [for]; the result is its value at the end of the iteration and the
    events of the iteration. *)
Definition writeLoop_body (d : DocWriter) (err : error) (doc : Document)
           (ins : InsertResults) : error * list Event :=
  let '(err', evs, k) := writeLoop_insert d err doc ins in
  (err', (evs ++ writeLoop_onerror err' doc ins k)%list).

(* ================================================================= *)
(** ** The running system: the writer, its goroutines, the world      *)
(* ================================================================= *)

(** Where a goroutine started by [go d.writeLoop()] stands.  [err] is its
    loop-carried local variable. *)
Inductive Worker : Type :=
| WSpawned
    (* created by the [go] statement, has not run [d.wg.Add(1)] yet *)
| WReading (err : error)
    (* at [doc, ok := <-d.wchan] *)
| WHolding (err : error) (idx : nat) (doc : Document)
    (* has received the [idx]-th document ever enqueued and has not
       handled it yet *)
| WExiting
    (* got [ok = false], left the loop, before [d.wg.Done()] *)
| WStopped.

(** Where a call of [Start] that found the flag clear stands in its loop:
    the passes it still has to make, and whether the pass it is in has
    assigned the flag ([d.started = true]) and is about to launch its
    goroutine. *)
Record Starter : Type := mkStarter {
  passes_left   : nat;
  flag_assigned : bool
}.

(** Where the (single) caller of [Flush] stands. *)
Inductive FlushState : Type :=
| FlushNotCalled
| FlushWaiting      (* channel closed, inside [d.wg.Wait()] *)
| FlushReturned.

Record System : Type := mkSystem {
  dw       : DocWriter;
  workers  : list Worker;          (* the goroutines, in launch order *)
  sending  : list Document;        (* [Write] calls past [Unlock], at the send *)
  flush    : FlushState;
  panicked : option string;        (* a goroutine panicked: the process is gone *)
  enqueued : list Document;        (* every document sent on [wchan], in order *)
  ndeq     : nat;                  (* how many have been received *)
  history  : list (nat * list Event);
                                   (* finished iterations: request index, events *)
  starting : list Starter          (* calls of [Start] inside their loop *)
}.

Definition boot (d : DocWriter) : System :=
  mkSystem d [] [] FlushNotCalled None [] 0%nat [] [].

Definition set_dw (d : DocWriter) (s : System) : System :=
  mkSystem d (workers s) (sending s) (flush s) (panicked s) (enqueued s)
           (ndeq s) (history s) (starting s).

Definition set_workers (ws : list Worker) (s : System) : System :=
  mkSystem (dw s) ws (sending s) (flush s) (panicked s) (enqueued s)
           (ndeq s) (history s) (starting s).

Definition set_sending (l : list Document) (s : System) : System :=
  mkSystem (dw s) (workers s) l (flush s) (panicked s) (enqueued s)
           (ndeq s) (history s) (starting s).

Definition set_flush (f : FlushState) (s : System) : System :=
  mkSystem (dw s) (workers s) (sending s) f (panicked s) (enqueued s)
           (ndeq s) (history s) (starting s).

Definition set_panicked (msg : string) (s : System) : System :=
  mkSystem (dw s) (workers s) (sending s) (flush s) (Some msg) (enqueued s)
           (ndeq s) (history s) (starting s).

Definition set_enqueued (l : list Document) (s : System) : System :=
  mkSystem (dw s) (workers s) (sending s) (flush s) (panicked s) l
           (ndeq s) (history s) (starting s).

Definition set_ndeq (n : nat) (s : System) : System :=
  mkSystem (dw s) (workers s) (sending s) (flush s) (panicked s) (enqueued s)
           n (history s) (starting s).

Definition set_history (h : list (nat * list Event)) (s : System) : System :=
  mkSystem (dw s) (workers s) (sending s) (flush s) (panicked s) (enqueued s)
           (ndeq s) h (starting s).

Definition set_starting (l : list Starter) (s : System) : System :=
  mkSystem (dw s) (workers s) (sending s) (flush s) (panicked s) (enqueued s)
           (ndeq s) (history s) l.

(** *** [Start] *)

(** One pass of the loop of [Start]: [d.started = true; go d.writeLoop()]. *)
Definition spawn (s : System) : System :=
  set_workers (workers s ++ [WSpawned]) (set_dw (set_started true (dw s)) s).

Fixpoint Start_loop (n : nat) (s : System) : System :=
  match n with
  | O => s
  | S n' => Start_loop n' (spawn s)
  end.

(** [for i := 0; i < count; i++] runs [max count 0] times.  This is a
    call of [Start] that no other goroutine gets in between. *)
Definition Start (count : Z) (s : System) : System :=
  if negb (started (dw s)) then Start_loop (Z.to_nat count) s else s.

(** The same call, statement by statement, for when other goroutines run
    in between ([Start] takes no lock).  The test [!d.started]: a call
    that finds the flag set returns; one that finds it clear enters the
    loop. *)
Definition Start_enter (count : Z) (s : System) : System :=
  if negb (started (dw s))
  then set_starting (starting s ++ [mkStarter (Z.to_nat count) false]) s
  else s.

(** The next statement of a call that is inside its loop:
    [d.started = true], or [go d.writeLoop()]; [None] when the loop is
    over and the call has returned. *)
Definition Start_next (st : Starter) (s : System)
  : option (Starter * System) :=
  match passes_left st, flag_assigned st with
  | O, _ => None
  | S n, false =>
      Some (mkStarter (S n) true, set_dw (set_started true (dw s)) s)
  | S n, true =>
      Some (mkStarter n false, set_workers (workers s ++ [WSpawned]) s)
  end.

(** *** [Write] and [Flush], called from one goroutine *)

Inductive Outcome : Type :=
| Returns (s : System)                  (* the call returned *)
| Blocks  (s : System)                  (* the caller is parked *)
| Panics  (msg : string) (s : System).  (* run-time panic, process killed *)

(** [d.wchan <- doc] for a document already through the registry section. *)
Definition Write_send (doc : Document) (s : System) : Outcome :=
  match Chan.send (wchan (dw s)) doc with
  | Chan.Sent c' =>
      Returns (set_enqueued (enqueued s ++ [doc])
                 (set_dw (set_wchan c' (dw s)) s))
  | Chan.SendBlocks => Blocks s
  | Chan.SendPanics =>
      Panics "send on closed channel"
             (set_panicked "send on closed channel" s)
  end.

Definition Write (doc : Document) (s : System) : Outcome :=
  let '(doc', d') := Write_register doc (dw s) in
  Write_send doc' (set_dw d' s).

(** [close(d.wchan)] then [d.wg.Wait()]. *)
Definition Flush_close (s : System) : Outcome :=
  match Chan.close (wchan (dw s)) with
  | Chan.Closed c' =>
      Returns (set_flush FlushWaiting (set_dw (set_wchan c' (dw s)) s))
  | Chan.ClosePanics =>
      Panics "close of closed channel"
             (set_panicked "close of closed channel" s)
  end.

Definition Flush_wait (s : System) : Outcome :=
  if wg (dw s) =? 0 then Returns (set_flush FlushReturned s) else Blocks s.

Definition Flush (s : System) : Outcome :=
  match Flush_close s with
  | Returns s' => Flush_wait s'
  | other => other
  end.

(* ================================================================= *)
(** ** Interleaving semantics                                         *)
(* ================================================================= *)

(** Goroutines interleave at their operations on shared state: the test
    and the two statements of the loop of [Start], the registry section
    (held under [dblock]), channel sends, receives and close, the
    WaitGroup operations, the closing of the shared session, and the
    handling of one received document.  That last one touches the
    goroutine's own variables, the database and the log, and reads the
    shared session ([d.Ssn.Copy()], lines 140 and 173): it is one step,
    which panics when a worker has closed the session before. *)

Fixpoint update_nth {A : Type} (i : nat) (x : A) (l : list A) : list A :=
  match l, i with
  | [], _ => []
  | _ :: t, O => x :: t
  | h :: t, S i' => h :: update_nth i' x t
  end.

Fixpoint remove_nth {A : Type} (i : nat) (l : list A) : list A :=
  match l, i with
  | [], _ => []
  | _ :: t, O => t
  | h :: t, S i' => h :: remove_nth i' t
  end.

(** The next operation of one worker goroutine; [None] when it is parked
    (empty open channel) or has returned.  The handling of a received
    document is one operation: it begins with [d.Ssn.Copy()] (line 140)
    and panics there when a worker that left its loop has closed the
    shared session; otherwise it runs to the end of the iteration and is
    recorded in the history.  (A session closed while the iteration is
    under way makes the [Copy] of the next retry panic, line 173; this is
    the same step taken after the closing one: the iteration that was cut
    short had no insert succeed and leaves no record.)  [d.Ssn.Close()]
    and [d.wg.Done()] at the exit are taken together. *)
Definition worker_step (ins : InsertResults) (w : Worker) (s : System)
  : option (Worker * System) :=
  match w with
  | WSpawned =>
      (* d.wg.Add(1) *)
      Some (WReading None, set_dw (set_wg (wg (dw s) + 1) (dw s)) s)
  | WReading err =>
      (* doc, ok := <-d.wchan *)
      match Chan.recv (wchan (dw s)) with
      | Chan.Received doc c' =>
          Some (WHolding err (ndeq s) doc,
                set_ndeq (S (ndeq s)) (set_dw (set_wchan c' (dw s)) s))
      | Chan.RecvClosed => Some (WExiting, s)
      | Chan.RecvBlocks => None
      end
  | WHolding err idx doc =>
      (* the rest of the iteration, from [ssn := d.Ssn.Copy()] on *)
      match Ssn (dw s) with
      | SessionClosed =>
          Some (WHolding err idx doc, set_panicked "Session already closed" s)
      | SessionOpen =>
          let '(err', evs) := writeLoop_body (dw s) err doc ins in
          Some (WReading err', set_history (history s ++ [(idx, evs)]) s)
      end
  | WExiting =>
      (* d.Ssn.Close(); d.wg.Done() *)
      Some (WStopped,
            set_dw (set_wg (wg (dw s) - 1) (set_Ssn SessionClosed (dw s))) s)
  | WStopped => None
  end.

Inductive Action : Type :=
| ActStart (count : Z)
    (* a call of [Start(count)] that runs from its test to its return
       with no other goroutine in between *)
| ActStartEnter (count : Z)
    (* a call of [Start(count)] makes its test [!d.started] *)
| ActStartNext (k : nat)
    (* the [k]-th call inside its loop performs its next statement *)
| ActWriteRegister (doc : Document)
    (* a producer runs [Write(doc)] up to [Unlock] *)
| ActWriteSend (n : nat)
    (* the [n]-th producer standing at the send performs it *)
| ActFlushClose
    (* [Flush] up to and including [close(d.wchan)] *)
| ActFlushWait
    (* [d.wg.Wait()] finds the counter at zero: [Flush] returns *)
| ActWorker (i : nat) (ins : InsertResults).
    (* worker [i] performs its next operation; [ins] are the results the
       database gives to the inserts of that operation *)

(** [exec a s]: the state after action [a], or [None] when [a] cannot
    happen in [s]. *)
Definition exec (a : Action) (s : System) : option System :=
  match panicked s with
  | Some _ => None
  | None =>
      match a with
      | ActStart count => Some (Start count s)
      | ActStartEnter count => Some (Start_enter count s)
      | ActStartNext k =>
          match nth_error (starting s) k with
          | None => None
          | Some st =>
              match Start_next st s with
              | None => None
              | Some (st', s') =>
                  Some (set_starting (update_nth k st' (starting s')) s')
              end
          end
      | ActWriteRegister doc =>
          let '(doc', d') := Write_register doc (dw s) in
          Some (set_sending (sending s ++ [doc']) (set_dw d' s))
      | ActWriteSend n =>
          match nth_error (sending s) n with
          | None => None
          | Some doc =>
              match Write_send doc s with
              | Returns s' => Some (set_sending (remove_nth n (sending s)) s')
              | Blocks _ => None
              | Panics _ s' => Some s'
              end
          end
      | ActFlushClose =>
          match flush s with
          | FlushWaiting => None
          | _ =>
              match Flush_close s with
              | Returns s' => Some s'
              | Blocks _ => None
              | Panics _ s' => Some s'
              end
          end
      | ActFlushWait =>
          match flush s with
          | FlushWaiting =>
              match Flush_wait s with
              | Returns s' => Some s'
              | _ => None
              end
          | _ => None
          end
      | ActWorker i ins =>
          match nth_error (workers s) i with
          | None => None
          | Some w =>
              match worker_step ins w s with
              | None => None
              | Some (w', s') =>
                  Some (set_workers (update_nth i w' (workers s')) s')
              end
          end
      end
  end.

Definition step (s s' : System) : Prop := exists a, exec a s = Some s'.

(** Running a schedule (a list of actions) from a state. *)
Fixpoint run (sched : list Action) (s : System) : option System :=
  match sched with
  | [] => Some s
  | a :: rest =>
      match exec a s with
      | None => None
      | Some s' => run rest s'
      end
  end.

(** The states the system can be in, started from [New cfg dbs]. *)
Inductive reachable (cfg : Resources) (dbs : list string) : System -> Prop :=
| reach_boot : reachable cfg dbs (boot (New cfg dbs))
| reach_step s a s' :
    reachable cfg dbs s -> exec a s = Some s' -> reachable cfg dbs s'.

(* ================================================================= *)
(** ** Vocabulary of the properties                                   *)
(* ================================================================= *)

(** Number of retry passes: each one starts with a sleep. *)
Definition retries (evs : list Event) : nat := List.length (sleeps evs).

(** How the handling of one dequeued request can end. *)
Inductive Resolved (d : DocWriter) (doc : Document) (evs : list Event) : Prop :=
| R_inserted :
    (* the document went into the database at least once *)
    In (EvInsert doc None) evs ->
    Resolved d doc evs
| R_exhausted :
    (* no insert succeeded, the retry engine made exactly 5 attempts and
       logged each of them *)
    successes evs = 0%nat ->
    retries evs = 5%nat ->
    falloffs evs = [0; 1; 2; 3; 4] ->
    Resolved d doc evs
| R_skipped :
    (* filtered, no override: no insert was attempted *)
    isWhitelisted (Whitelist d) filter_subject = true ->
    ImportWl d = false ->
    attempts evs = 0%nat ->
    Resolved d doc evs.

(** Number of leading failures among [ins k], [ins (k+1)], ... looking at
    no more than [n] results. *)
Fixpoint leading_failures (ins : InsertResults) (k n : nat) : nat :=
  match n with
  | O => O
  | S n' =>
      match ins k with
      | None => O
      | Some _ => S (leading_failures ins (S k) n')
      end
  end.

Definition is_stopped (w : Worker) : bool :=
  match w with WStopped => true | _ => false end.

Definition is_spawned (w : Worker) : bool :=
  match w with WSpawned => true | _ => false end.

(** A worker between its [wg.Add(1)] and its [wg.Done()]. *)
Definition is_active (w : Worker) : bool :=
  match w with
  | WReading _ | WHolding _ _ _ | WExiting => true
  | WSpawned | WStopped => false
  end.

Definition all_stopped (s : System) : bool := forallb is_stopped (workers s).

Definition nworkers (s : System) : nat := List.length (workers s).

(** Request [i] (the [i]-th document enqueued) is resolved in [s]: some
    worker has finished handling it, with one of the three endings. *)
Definition request_resolved (s : System) (i : nat) : Prop :=
  exists doc evs,
    nth_error (enqueued s) i = Some doc /\
    In (i, evs) (history s) /\
    Resolved (dw s) doc evs.

(** Request [i] is still sitting in the channel. *)
Definition request_queued (s : System) (i : nat) : Prop :=
  (ndeq s <= i < List.length (enqueued s))%nat.

(** Number of workers counted by the WaitGroup. *)
Definition active_count (ws : list Worker) : nat :=
  List.length (filter is_active ws).

(** A worker that has seen the closed channel. *)
Definition left_loop (w : Worker) : bool :=
  match w with
  | WExiting | WStopped => true
  | _ => false
  end.

(** The value of the variable [err] of a worker that is inside its loop. *)
Definition worker_err (w : Worker) : error :=
  match w with
  | WReading err | WHolding err _ _ => err
  | _ => None
  end.

(** Request [i] is in the hands of a worker. *)
Definition request_held (s : System) (i : nat) : Prop :=
  exists err doc,
    In (WHolding err i doc) (workers s) /\
    nth_error (enqueued s) i = Some doc.

(** What holds in every state of a writer created by [New cfg dbs]. *)
Record Inv (cfg : Resources) (dbs : list string) (s : System) : Prop := {
  inv_pre : pre (dw s) = DBPrefix cfg;
  inv_importwl : ImportWl (dw s) = ImportWhitelist cfg;
  inv_whitelist : Whitelist (dw s) = CfgWhitelist cfg;
  inv_cap : Chan.cap (wchan (dw s)) = 5000%nat;
  (* the channel holds the documents sent and not yet received *)
  inv_buf : Chan.buf (wchan (dw s)) = skipn (ndeq s) (enqueued s);
  inv_ndeq : (ndeq s <= List.length (enqueued s))%nat;
  (* the WaitGroup counts the workers inside their loop *)
  inv_wg : wg (dw s) = Z.of_nat (active_count (workers s));
  (* a worker leaves its loop only on a closed and empty channel *)
  inv_left :
    (exists w, In w (workers s) /\ left_loop w = true) ->
    Chan.closed (wchan (dw s)) = true /\ Chan.buf (wchan (dw s)) = [];
  inv_flush :
    flush s <> FlushNotCalled -> Chan.closed (wchan (dw s)) = true;
  (* a received request is resolved or in the hands of a worker *)
  inv_handled :
    forall i, (i < ndeq s)%nat -> request_resolved s i \/ request_held s i;
  (* the registry *)
  inv_databases : Databases (dw s) = (dbs ++ Meta (dw s))%list;
  inv_meta_nodup : NoDup (Meta (dw s));
  inv_meta_new : forall x, In x (Meta (dw s)) -> ~ In x dbs;
  inv_registered :
    forall doc, In doc (sending s) \/ In doc (enqueued s) ->
                In (DB doc) (Databases (dw s))
}.

Arguments inv_pre {cfg dbs s} _.
Arguments inv_importwl {cfg dbs s} _.
Arguments inv_whitelist {cfg dbs s} _.
Arguments inv_cap {cfg dbs s} _.
Arguments inv_buf {cfg dbs s} _.
Arguments inv_ndeq {cfg dbs s} _.
Arguments inv_wg {cfg dbs s} _.
Arguments inv_left {cfg dbs s} _.
Arguments inv_flush {cfg dbs s} _.
Arguments inv_handled {cfg dbs s} _.
Arguments inv_databases {cfg dbs s} _.
Arguments inv_meta_nodup {cfg dbs s} _.
Arguments inv_meta_new {cfg dbs s} _.
Arguments inv_registered {cfg dbs s} _.

(** A database that refuses every insert, and one that accepts all. *)
Definition always_fail (msg : string) : InsertResults := fun _ => Some msg.
Definition always_ok : InsertResults := fun _ => None.


(** What pass [i] of the retry loop does when the document has had [k]
    inserts before the loop: sleep [i * i], insert, log the result. *)
Definition retry_round (doc : Document) (ins : InsertResults) (k i : nat)
  : list Event :=
  [ EvSleep (Z.of_nat i * Z.of_nat i);
    EvInsert doc (ins (i + k)%nat);
    match ins (i + k)%nat with
    | None => EvLogInfo "Write succeeded"
    | Some msg => EvLogError msg (Some (Z.of_nat i))
    end ].

(** Does the iteration make the first insert (lines 144-150)? *)
Definition first_insert_made (d : DocWriter) (err : error) (doc : Document)
           (ins : InsertResults) : bool :=
  (0 <? snd (writeLoop_insert d err doc ins))%nat.

(** An event with the document taken out of it. *)
Definition event_shape (e : Event) : Event :=
  match e with
  | EvInsert _ res => EvInsert (mkDocument "" "" "") res
  | EvDump _ => EvDump ""
  | other => other
  end.

(** *** Sample inputs *)

Definition sample_cfg : Resources :=
  {| DBPrefix := "rita-"; ImportWhitelist := false; CfgWhitelist := None |}.

(** A configuration whose whitelist matches the subject of the loop. *)
Definition filtering_cfg : Resources :=
  {| DBPrefix := "rita-"; ImportWhitelist := false;
     CfgWhitelist := Some ["wholesome"] |}.

Definition sample_doc : Document :=
  {| Doc := "{conn: 1}"; DB := "day1"; Coll := "conn" |}.

Definition other_doc : Document :=
  {| Doc := "{dns: 2}"; DB := "day2"; Coll := "dns" |}.

(** The message of the panic a call ended with, if it did. *)
Definition panic_message (o : Outcome) : option string :=
  match o with
  | Panics msg _ => Some msg
  | _ => None
  end.

(** A writer with no worker on which [Flush] has been called. *)
Definition flushed_idle : System :=
  set_flush FlushReturned
    (set_dw (set_wchan (Chan.mk [] 5000 true) (New sample_cfg []))
            (boot (New sample_cfg []))).

(** A run with one worker that handles one document and is shut down in
    order: the worker registers with the WaitGroup, a document is written
    and handled, [Flush] closes the channel, the worker sees the closure
    and leaves, [Flush] returns. *)
Definition clean_shutdown : list Action :=
  [ ActStart 1;
    ActWorker 0 always_ok;          (* wg.Add(1) *)
    ActWriteRegister sample_doc;
    ActWriteSend 0;
    ActWorker 0 always_ok;          (* receive *)
    ActWorker 0 always_ok;          (* insert *)
    ActFlushClose;
    ActWorker 0 always_ok;          (* ok = false *)
    ActWorker 0 always_ok;          (* wg.Done() *)
    ActFlushWait ].

(** A run where [Flush] is called right after [Start] and [Write], before
    the scheduler has run the new goroutine at all. *)
Definition hasty_flush : list Action :=
  [ ActStart 1;
    ActWriteRegister sample_doc;
    ActWriteSend 0;
    ActFlushClose;
    ActFlushWait ].

(** The state [clean_shutdown] ends in. *)
Definition quiet_state : System :=
  Eval vm_compute in
    match run clean_shutdown (boot (New sample_cfg [])) with
    | Some s => s
    | None => boot (New sample_cfg [])
    end.

(** The state [hasty_flush] ends in. *)
Definition hasty_state : System :=
  Eval vm_compute in
    match run hasty_flush (boot (New sample_cfg [])) with
    | Some s => s
    | None => boot (New sample_cfg [])
    end.

(** The state after [Write(sample_doc)] and [Flush()] on a writer that was
    never started. *)
Definition abandoned_state : System :=
  Eval vm_compute in
    match Write sample_doc (boot (New sample_cfg [])) with
    | Returns s1 =>
        match Flush s1 with
        | Returns s2 => s2
        | _ => s1
        end
    | _ => boot (New sample_cfg [])
    end.

(** A run with two workers of which only the first gets to run before
    [Flush] returns.  It handles two documents: the database refuses every
    insert of the first one and takes the second one at once.  The run
    stops right before [d.wg.Wait()] lets [Flush] return. *)
Definition one_idle_worker : list Action :=
  [ ActStart 2;
    ActWorker 0 always_ok;                (* wg.Add(1) *)
    ActWriteRegister sample_doc;
    ActWriteSend 0;
    ActWriteRegister other_doc;
    ActWriteSend 0;
    ActWorker 0 always_ok;                (* receive *)
    ActWorker 0 (always_fail "refused");  (* six inserts, all refused *)
    ActWorker 0 always_ok;                (* receive *)
    ActWorker 0 always_ok;                (* insert *)
    ActFlushClose;
    ActWorker 0 always_ok;                (* ok = false *)
    ActWorker 0 always_ok ].              (* wg.Done() *)

(** The state [one_idle_worker] ends in, and the one after the return of
    [Flush]. *)
Definition waiting_state : System :=
  Eval vm_compute in
    match run one_idle_worker (boot (New sample_cfg [])) with
    | Some s => s
    | None => boot (New sample_cfg [])
    end.

Definition returned_state : System :=
  Eval vm_compute in
    match run (one_idle_worker ++ [ActFlushWait])
              (boot (New sample_cfg [])) with
    | Some s => s
    | None => boot (New sample_cfg [])
    end.

(** A run on a writer whose [GetDatabases] listed "rita-day2": two
    producers write to the new database "day1" at the same time (both go
    through the registry section before either sends), a third writes to
    "day2", a fourth to the new database "day3", and "day1" is written to
    once more at the end. *)
Definition racing_producers : list Action :=
  [ ActStart 1;
    ActWriteRegister sample_doc;
    ActWriteRegister {| Doc := "{conn: 2}"; DB := "day1"; Coll := "conn" |};
    ActWriteRegister other_doc;
    ActWriteSend 1;
    ActWriteSend 0;
    ActWriteRegister {| Doc := "{http: 3}"; DB := "day3"; Coll := "http" |};
    ActWriteSend 0;
    ActWriteSend 0;
    ActWriteRegister sample_doc;
    ActWriteSend 0 ].

(** The state [racing_producers] ends in. *)
Definition racing_state : System :=
  Eval vm_compute in
    match run racing_producers (boot (New sample_cfg ["rita-day2"])) with
    | Some s => s
    | None => boot (New sample_cfg ["rita-day2"])
    end.

(** The state after [Write(sample_doc)] on a writer whose [GetDatabases]
    returned the name "rita-day1" twice. *)
Definition repeated_seed_state : System :=
  Eval vm_compute in
    match run [ActWriteRegister sample_doc; ActWriteSend 0]
              (boot (New sample_cfg ["rita-day1"; "rita-day1"])) with
    | Some s => s
    | None => boot (New sample_cfg ["rita-day1"; "rita-day1"])
    end.


(* ================================================================= *)
(** ** Further vocabulary: bookkeeping of the whole run               *)
(* ================================================================= *)

Definition is_dump (e : Event) : bool :=
  match e with EvDump _ => true | _ => false end.

(** Number of [spew.Dump] calls. *)
Definition dumps (evs : list Event) : nat := count is_dump evs.

(** The event concerns [doc] and nothing else: an insert is of [doc], a
    dump is of its payload. *)
Definition event_about (doc : Document) (e : Event) : Prop :=
  match e with
  | EvInsert d _ => d = doc
  | EvDump towrite => towrite = Doc doc
  | _ => True
  end.

(** The document [Write] puts on the channel for [doc]. *)
Definition prefixed (d : DocWriter) (doc : Document) : Document :=
  mkDocument (Doc doc) (pre d ++ DB doc) (Coll doc).

(** The indices of the requests in the hands of the workers. *)
Fixpoint held_indices (ws : list Worker) : list nat :=
  match ws with
  | [] => []
  | WHolding _ i _ :: rest => i :: held_indices rest
  | _ :: rest => held_indices rest
  end.

(** The indices of the requests received so far, each as often as it is
    in a worker's hands or in the history. *)
Definition handled_indices (s : System) : list nat :=
  (map fst (history s) ++ held_indices (workers s))%list.

(** [evs] is what one iteration of the loop did for [doc], under the
    whitelist and the import flag of [cfg]. *)
Definition iteration_of (cfg : Resources) (doc : Document)
           (evs : list Event) : Prop :=
  exists d err ins,
    Whitelist d = CfgWhitelist cfg /\
    ImportWl d = ImportWhitelist cfg /\
    evs = snd (writeLoop_body d err doc ins).

(** [Write] called for each document of a list in turn by one goroutine;
    the calls after one that does not return are not made. *)
Fixpoint Write_all (docs : list Document) (s : System) : Outcome :=
  match docs with
  | [] => Returns s
  | doc :: rest =>
      match Write doc s with
      | Returns s' => Write_all rest s'
      | other => other
      end
  end.

(** More of what holds in every state of a writer created by
    [New cfg dbs]. *)
Record Inv2 (cfg : Resources) (dbs : list string) (s : System) : Prop := {
  (* the channel never holds more than its capacity *)
  inv2_len : (Chan.len (wchan (dw s)) <= Chan.cap (wchan (dw s)))%nat;
  (* only [Flush] closes the channel *)
  inv2_closed :
    Chan.closed (wchan (dw s)) = true -> flush s <> FlushNotCalled;
  (* every document past the registry section has the prefix *)
  inv2_prefix :
    forall doc, In doc (sending s) \/ In doc (enqueued s) ->
                exists name, DB doc = DBPrefix cfg ++ name;
  (* what a worker holds is the request with that index *)
  inv2_held :
    forall err i doc, In (WHolding err i doc) (workers s) ->
                      nth_error (enqueued s) i = Some doc;
  (* what the history records is an iteration on the request *)
  inv2_history :
    forall i evs, In (i, evs) (history s) ->
                  exists doc, nth_error (enqueued s) i = Some doc /\
                              iteration_of cfg doc evs;
  (* every received request is in one place, once *)
  inv2_once : Permutation (handled_indices s) (seq 0 (ndeq s))
}.

Arguments inv2_len {cfg dbs s} _.
Arguments inv2_closed {cfg dbs s} _.
Arguments inv2_prefix {cfg dbs s} _.
Arguments inv2_held {cfg dbs s} _.
Arguments inv2_history {cfg dbs s} _.
Arguments inv2_once {cfg dbs s} _.

(** One producer and one worker taking turns: each document is written
    and handled before the next one is written. *)
Definition serve_one (ins : InsertResults) (doc : Document) : list Action :=
  [ ActWriteRegister doc;
    ActWriteSend 0;
    ActWorker 0 ins;       (* receive *)
    ActWorker 0 ins ].     (* the rest of the iteration *)

(** The whole session of such a writer, from [Start(1)] to the return of
    [Flush]. *)
Definition single_worker_session (ins : InsertResults)
           (docs : list Document) : list Action :=
  ([ActStart 1; ActWorker 0 ins]
   ++ flat_map (serve_one ins) docs
   ++ [ActFlushClose; ActWorker 0 ins; ActWorker 0 ins; ActFlushWait])%list.

(** The writer during such a session: prefix [p], import flag [iw],
    whitelist [wl], an open channel holding [q], WaitGroup counter [g]. *)
Definition session_dw (p : string) (iw : bool) (wl : StringSlice) (g : Z)
           (st : bool) (q : list Document) (meta dbl : list string)
  : DocWriter :=
  mkDocWriter SessionOpen p iw wl (Chan.mk q 5000 false) g meta dbl st.

(** The history of a session in which every document is stored by the
    first insert: request [k + j] for the [j]-th document. *)
Fixpoint stored_history (d : DocWriter) (k : nat) (docs : list Document)
  : list (nat * list Event) :=
  match docs with
  | [] => []
  | doc :: rest =>
      (k, [EvInsert (prefixed d doc) None]) :: stored_history d (S k) rest
  end.

(** A run with two workers in which the first leaves its loop while the
    second holds a request: both register, a document is written and
    received by the second worker, [Flush] closes the channel, and the
    first worker sees the closure and leaves, closing the session. *)
Definition early_leaver : list Action :=
  [ ActStart 2;
    ActWorker 0 always_ok;    (* wg.Add(1) *)
    ActWorker 1 always_ok;    (* wg.Add(1) *)
    ActWriteRegister sample_doc;
    ActWriteSend 0;
    ActWorker 1 always_ok;    (* receive *)
    ActFlushClose;
    ActWorker 0 always_ok;    (* ok = false *)
    ActWorker 0 always_ok ].  (* d.Ssn.Close(); d.wg.Done() *)

(** The state [early_leaver] ends in. *)
Definition orphaned_state : System :=
  Eval vm_compute in
    match run early_leaver (boot (New sample_cfg [])) with
    | Some s => s
    | None => boot (New sample_cfg [])
    end.

(** One call of [Start(count)], statement by statement, with nothing in
    between; [k] is the number of calls that entered their loop before. *)
Definition stepwise_start (k : nat) (count : Z) : list Action :=
  ActStartEnter count :: repeat (ActStartNext k) (2 * Z.to_nat count).

(** Two calls, [Start(n)] and [Start(m)], that both make their test before
    either has assigned the flag; the first then runs its loop, and then
    the second. *)
Definition overlapping_starts (n m : Z) : list Action :=
  ([ActStartEnter n; ActStartEnter m]
   ++ repeat (ActStartNext 0) (2 * Z.to_nat n)
   ++ repeat (ActStartNext 1) (2 * Z.to_nat m))%list.

(** The state after a producer tries one more [Write] on the writer that
    was shut down. *)
Definition late_write_state : System :=
  Eval vm_compute in
    match run (clean_shutdown
               ++ [ActWriteRegister other_doc; ActWriteSend 0])
              (boot (New sample_cfg [])) with
    | Some s => s
    | None => boot (New sample_cfg [])
    end.

(** The state [clean_shutdown] ends in on a writer whose whitelist
    matches the subject of the loop. *)
Definition filtered_state : System :=
  Eval vm_compute in
    match run clean_shutdown (boot (New filtering_cfg [])) with
    | Some s => s
    | None => boot (New filtering_cfg [])
    end.

(** The state of [clean_shutdown] right before [Flush] returns. *)
Definition drained_state : System :=
  Eval vm_compute in
    match run (firstn 9 clean_shutdown) (boot (New sample_cfg [])) with
    | Some s => s
    | None => boot (New sample_cfg [])
    end.

(* ================================================================= *)
(** * Properties                                                      *)
(* ================================================================= *)

(* ----------------------------------------------------------------- *)
(** ** The content filter                                             *)
(* ----------------------------------------------------------------- *)

Section ContentFilter.

Import GoStrings.

Lemma HasPrefix_iff (s p : string) :
  HasPrefix s p = true <-> exists b, s = p ++ b.
Proof.
  revert s; induction p as [|c p IH]; intros s; simpl.
  - split; [intros _; exists s; reflexivity | reflexivity].
  - destruct s as [|d s].
    + split; [discriminate | intros [b Hb]; discriminate].
    + rewrite andb_true_iff, Ascii.eqb_eq, IH. split.
      * intros [-> [b ->]]. exists b; reflexivity.
      * intros [b Hb]. injection Hb as -> ->. split; [reflexivity | eauto].
Qed.

Lemma IndexFrom_found (s p : string) (from : Z) :
  0 <= from -> (0 <= IndexFrom from s p <-> substring_of p s).
Proof.
  revert from; induction s as [|c s IH]; intros from Hfrom; simpl.
  - destruct (HasPrefix "" p) eqn:E.
    + split; [intros _ | intros _; exact Hfrom].
      apply HasPrefix_iff in E. destruct E as [b Hb].
      exists "", b. exact Hb.
    + split; [lia|]. intros [a [b Hab]]. exfalso.
      destruct a; [|discriminate]. simpl in Hab.
      assert (HasPrefix "" p = true) by (apply HasPrefix_iff; eauto).
      congruence.
  - destruct (HasPrefix (String c s) p) eqn:E.
    + split; [intros _ | intros _; exact Hfrom].
      apply HasPrefix_iff in E. destruct E as [b Hb].
      exists "", b. exact Hb.
    + rewrite (IH (from + 1)) by lia. split.
      * intros [a [b ->]]. exists (String c a), b. reflexivity.
      * intros [a [b Hab]]. destruct a as [|c' a].
        -- exfalso. simpl in Hab.
           assert (HasPrefix (String c s) p = true)
             by (apply HasPrefix_iff; eauto).
           congruence.
        -- simpl in Hab. injection Hab as _ ->. exists a, b. reflexivity.
Qed.

(** [strings.Contains] decides the substring relation. *)
Lemma Contains_iff (s p : string) :
  Contains s p = true <-> substring_of p s.
Proof.
  unfold Contains, Index. rewrite Z.leb_le. apply IndexFrom_found. lia.
Qed.

Lemma isWhitelisted_loop_iff (wl : list string) (url : string) :
  isWhitelisted_loop wl url = true <->
  exists p, In p wl /\ substring_of p url.
Proof.
  induction wl as [|p wl IH]; simpl.
  - split; [discriminate | intros [p [[] _]]].
  - destruct (Contains url p) eqn:E.
    + split; [intros _ | reflexivity].
      exists p. split; [left; reflexivity | apply Contains_iff; exact E].
    + rewrite IH. split.
      * intros [q [Hq Hs]]. exists q. split; [right; exact Hq | exact Hs].
      * intros [q [[<- | Hq] Hs]].
        -- apply Contains_iff in Hs. congruence.
        -- exists q. split; assumption.
Qed.

(** C8. The filter predicate [isWhitelisted] returns false when the
    pattern list is unset ([nil]) or empty; on any list it returns true
    exactly when the subject contains one of the patterns as a substring,
    compared byte for byte (so case matters).  On the pattern list
    ["foo"] it answers true for "foobar", false for "bar" and false for
    "FOOBAR". *)
Theorem C8_isWhitelisted_spec :
  (forall url, isWhitelisted None url = false) /\
  (forall url, isWhitelisted (Some []) url = false) /\
  (forall wl url,
      isWhitelisted (Some wl) url = true <->
      exists p, In p wl /\ substring_of p url) /\
  isWhitelisted (Some ["foo"]) "foobar" = true /\
  isWhitelisted (Some ["foo"]) "bar" = false /\
  isWhitelisted (Some ["foo"]) "FOOBAR" = false.
Proof.
  repeat split; try reflexivity.
  - apply isWhitelisted_loop_iff.
  - apply isWhitelisted_loop_iff.
Qed.

End ContentFilter.

(* ----------------------------------------------------------------- *)
(** ** The retry engine                                               *)
(* ----------------------------------------------------------------- *)

Lemma count_app (p : Event -> bool) (l1 l2 : list Event) :
  count p (l1 ++ l2) = (count p l1 + count p l2)%nat.
Proof. unfold count. rewrite filter_app, length_app. reflexivity. Qed.

(** C5. The retry engine [expFalloff], on any document and whatever the
    database answers: pass [i] (0-indexed) sleeps [i * i] time units and
    then inserts, so the sleeps are a prefix of 0, 1, 4, 9, 16 and sum to
    at most 30; the passes stop right after the first successful insert
    (the number of inserts is the number of leading failures plus one);
    and there are at most 5 inserts. *)
Theorem C5_expFalloff_backoff (doc : Document) (ins : InsertResults) (k : nat) :
  let evs := expFalloff doc ins k in
  let n := Nat.min 5 (S (leading_failures ins k 5)) in
  evs = flat_map (retry_round doc ins k) (seq 0 n) /\
  attempts evs = n /\
  (attempts evs <= 5)%nat /\
  sleeps evs = firstn n [0; 1; 4; 9; 16] /\
  total_sleep evs <= 30 /\
  successes evs = (if (leading_failures ins k 5 <? 5)%nat then 1 else 0)%nat /\
  failures evs = Nat.min 5 (leading_failures ins k 5) /\
  falloffs evs = map Z.of_nat (seq 0 (failures evs)).
Proof.
  unfold expFalloff, falloff_indices, retry_round,
    attempts, successes, failures, total_sleep, count.
  simpl.
  destruct (ins k) eqn:E0; simpl; rewrite ?E0; simpl;
    [destruct (ins (S k)) eqn:E1; simpl; rewrite ?E1; simpl;
     [destruct (ins (S (S k))) eqn:E2; simpl; rewrite ?E2; simpl;
      [destruct (ins (S (S (S k)))) eqn:E3; simpl; rewrite ?E3; simpl;
       [destruct (ins (S (S (S (S k))))) eqn:E4; simpl; rewrite ?E4; simpl
       |] |] |] |];
    repeat split; try reflexivity; try lia.
Qed.

(* ----------------------------------------------------------------- *)
(** ** One iteration of the worker loop                               *)
(* ----------------------------------------------------------------- *)

Lemma first_insert_made_gate (d : DocWriter) (err : error) (doc : Document)
      (ins : InsertResults) :
  first_insert_made d err doc ins =
  negb (isWhitelisted (Whitelist d) filter_subject) || ImportWl d.
Proof.
  unfold first_insert_made, writeLoop_insert.
  destruct (isWhitelisted (Whitelist d) filter_subject), (ImportWl d);
    reflexivity.
Qed.




Lemma expFalloff_loop_shape (idxs : list Z) (doc1 doc2 : Document)
      (ins : InsertResults) (k : nat) :
  map event_shape (expFalloff_loop idxs doc1 ins k) =
  map event_shape (expFalloff_loop idxs doc2 ins k).
Proof.
  revert k; induction idxs as [|i rest IH]; intros k; simpl; [reflexivity|].
  destruct (ins k); simpl; [rewrite IH|]; reflexivity.
Qed.

Lemma writeLoop_onerror_shape (err : error) (doc1 doc2 : Document)
      (ins : InsertResults) (k : nat) :
  map event_shape (writeLoop_onerror err doc1 ins k) =
  map event_shape (writeLoop_onerror err doc2 ins k).
Proof.
  destruct err as [msg|]; [|reflexivity].
  unfold writeLoop_onerror, expFalloff.
  rewrite !map_app, !map_cons, (expFalloff_loop_shape _ doc1 doc2).
  destruct (GoStrings.Contains msg "ObjectIDs"); reflexivity.
Qed.

(** C9. In the worker loop the subject handed to the content filter is
    the fixed string [filter_subject], whatever document was dequeued: for
    any two documents handled under the same whitelist and import flag
    (and whatever the carried error and the database do), the decision to
    make the first insert is the same, and it is a function of the
    whitelist and the flag alone.  Beyond the filter: with the same
    carried error and the same answers of the database, the iterations for
    two documents leave the same error and make the same calls, the
    document aside. *)
Theorem C9_filter_decision_ignores_document
        (d : DocWriter) (doc1 doc2 : Document) (err1 err2 : error)
        (ins1 ins2 : InsertResults) :
  first_insert_made d err1 doc1 ins1 = first_insert_made d err2 doc2 ins2 /\
  first_insert_made d err1 doc1 ins1 =
    negb (isWhitelisted (Whitelist d) filter_subject) || ImportWl d /\
  fst (writeLoop_body d err1 doc1 ins1) = fst (writeLoop_body d err1 doc2 ins1) /\
  map event_shape (snd (writeLoop_body d err1 doc1 ins1)) =
  map event_shape (snd (writeLoop_body d err1 doc2 ins1)).
Proof.
  rewrite !first_insert_made_gate.
  split; [reflexivity | split; [reflexivity |]].
  unfold writeLoop_body, writeLoop_insert.
  destruct (isWhitelisted (Whitelist d) filter_subject);
    [destruct (ImportWl d)|]; cbn [fst snd]; (split; [reflexivity|]);
    rewrite !map_app, (writeLoop_onerror_shape _ doc1 doc2); reflexivity.
Qed.

Lemma err_assigned_only_on_insert (d : DocWriter) (err : error)
      (doc : Document) (ins : InsertResults) :
  fst (fst (writeLoop_insert d err doc ins)) =
  if first_insert_made d err doc ins then ins 0%nat else err.
Proof.
  unfold first_insert_made, writeLoop_insert.
  destruct (isWhitelisted (Whitelist d) filter_subject), (ImportWl d);
    reflexivity.
Qed.

(** C10. The variable [err] of the worker loop lives across iterations
    and is assigned only by an iteration that makes the first insert.  So
    on a filtered document with the import override off, no first insert
    is made and [err] keeps the value the previous iteration left; when
    that value is an error, the worker logs it again and runs the retry
    engine on the filtered document, which stores the document as soon as
    the database accepts an insert. *)
Theorem C10_stale_error_retries_filtered
        (d : DocWriter) (doc : Document) (msg : string) (ins : InsertResults) :
  isWhitelisted (Whitelist d) filter_subject = true ->
  ImportWl d = false ->
  (forall d' err' doc' ins',
      fst (fst (writeLoop_insert d' err' doc' ins')) =
      if first_insert_made d' err' doc' ins' then ins' 0%nat else err') /\
  first_insert_made d (Some msg) doc ins = false /\
  fst (writeLoop_body d (Some msg) doc ins) = Some msg /\
  (exists dump,
      snd (writeLoop_body d (Some msg) doc ins) =
      (dump ++ EvLogError msg None :: expFalloff doc ins 0)%list /\
      attempts dump = 0%nat) /\
  In (EvInsert doc None) (snd (writeLoop_body d (Some msg) doc always_ok)) /\
  writeLoop_body d None doc ins = (None, []).
Proof.
  intros Hwl Himp.
  split; [intros; apply err_assigned_only_on_insert|].
  unfold first_insert_made, writeLoop_body, writeLoop_insert.
  rewrite Hwl, Himp. simpl.
  repeat split.
  - eexists. split; [reflexivity|].
    destruct (GoStrings.Contains msg "ObjectIDs"); reflexivity.
  - apply in_or_app. right. simpl. auto.
Qed.

Lemma C10_stale_error_witness :
  isWhitelisted (Whitelist (New filtering_cfg [])) filter_subject = true /\
  ImportWl (New filtering_cfg []) = false /\
  fst (writeLoop_body (New filtering_cfg []) (Some "refused") sample_doc
                      always_ok) = Some "refused".
Proof.
  split; [reflexivity | split; [reflexivity |]].
  apply (C10_stale_error_retries_filtered
           (New filtering_cfg []) sample_doc "refused" always_ok);
    reflexivity.
Defined.

Lemma sleeps_app (l1 l2 : list Event) :
  sleeps (l1 ++ l2) = (sleeps l1 ++ sleeps l2)%list.
Proof.
  induction l1 as [|e l1 IH]; [reflexivity|].
  destruct e; simpl; rewrite IH; reflexivity.
Qed.

Lemma falloffs_app (l1 l2 : list Event) :
  falloffs (l1 ++ l2) = (falloffs l1 ++ falloffs l2)%list.
Proof.
  induction l1 as [|e l1 IH]; [reflexivity|].
  destruct e as [| | |? [?|]|]; simpl; rewrite IH; reflexivity.
Qed.

(** Whatever the configuration, the carried error and the database: the
    handling of a dequeued document ends in one of the three ways. *)
Lemma writeLoop_body_resolved (d : DocWriter) (err : error) (doc : Document)
      (ins : InsertResults) :
  Resolved d doc (snd (writeLoop_body d err doc ins)).
Proof.
  assert (Hretry : forall k dump msg,
             successes dump = 0%nat ->
             sleeps dump = [] -> falloffs dump = [] ->
             Resolved d doc (dump ++ EvLogError msg None
                                  :: expFalloff doc ins k)).
  { intros k dump msg Hs Hsl Hf.
    unfold expFalloff, falloff_indices; simpl.
    destruct (ins k) eqn:E0;
      [destruct (ins (S k)) eqn:E1;
       [destruct (ins (S (S k))) eqn:E2;
        [destruct (ins (S (S (S k)))) eqn:E3;
         [destruct (ins (S (S (S (S k))))) eqn:E4 |] |] |] |].
    2-6: apply R_inserted; apply in_or_app; right; simpl; tauto.
    apply R_exhausted; unfold retries, successes in *;
      rewrite ?count_app, ?sleeps_app, ?falloffs_app, ?Hs, ?Hsl, ?Hf;
      reflexivity. }
  unfold writeLoop_body, writeLoop_insert.
  destruct (isWhitelisted (Whitelist d) filter_subject) eqn:Hwl;
    [destruct (ImportWl d) eqn:Himp|].
  - simpl. destruct (ins 0%nat) eqn:E0.
    + simpl. destruct (GoStrings.Contains s "ObjectIDs");
        [apply (Hretry 1%nat [EvInsert doc (Some s); EvDump (Doc doc)])
        |apply (Hretry 1%nat [EvInsert doc (Some s)])]; reflexivity.
    + apply R_inserted. simpl. auto.
  - simpl. destruct err as [msg|].
    + simpl. destruct (GoStrings.Contains msg "ObjectIDs");
        [apply (Hretry 0%nat [EvDump (Doc doc)])
        |apply (Hretry 0%nat [])]; reflexivity.
    + apply R_skipped; auto.
  - simpl. destruct (ins 0%nat) eqn:E0.
    + simpl. destruct (GoStrings.Contains s "ObjectIDs");
        [apply (Hretry 1%nat [EvInsert doc (Some s); EvDump (Doc doc)])
        |apply (Hretry 1%nat [EvInsert doc (Some s)])]; reflexivity.
    + apply R_inserted. simpl. auto.
Qed.

(* ----------------------------------------------------------------- *)
(** ** [Start] and the [started] flag                                 *)
(* ----------------------------------------------------------------- *)

Lemma Start_loop_workers (n : nat) (s : System) :
  workers (Start_loop n s) = (workers s ++ repeat WSpawned n)%list.
Proof.
  revert s; induction n as [|n IH]; intros s; simpl.
  - rewrite app_nil_r. reflexivity.
  - rewrite IH. simpl. rewrite <- app_assoc. reflexivity.
Qed.

Lemma Start_loop_started (n : nat) (s : System) :
  started (dw (Start_loop n s)) =
  match n with O => started (dw s) | S _ => true end.
Proof.
  revert s; induction n as [|n IH]; intros s; simpl; [reflexivity|].
  rewrite IH. destruct n; reflexivity.
Qed.

Lemma Start_when_started (count : Z) (s : System) :
  started (dw s) = true -> Start count s = s.
Proof. intros H. unfold Start. rewrite H. reflexivity. Qed.

Lemma Start_nonpositive (count : Z) (s : System) :
  count <= 0 -> Start count s = s.
Proof.
  intros H. unfold Start.
  replace (Z.to_nat count) with 0%nat by lia.
  destruct (negb (started (dw s))); reflexivity.
Qed.

Lemma Start_started_mono (count : Z) (s : System) :
  started (dw s) = true -> started (dw (Start count s)) = true.
Proof. intros H. rewrite Start_when_started; assumption. Qed.

(* ----------------------------------------------------------------- *)
(** ** The registry section of [Write]                                *)
(* ----------------------------------------------------------------- *)

Lemma seen_loop_true_iff (dbs : list string) (name : string) (seen : bool) :
  seen_loop dbs name seen = true <-> seen = true \/ In name dbs.
Proof.
  revert seen; induction dbs as [|aval rest IH]; intros seen; simpl.
  - tauto.
  - rewrite IH. destruct (String.eqb aval name) eqn:E.
    + apply String.eqb_eq in E. subst. tauto.
    + apply String.eqb_neq in E. split.
      * intros [H | H]; auto.
      * intros [H | [H | H]]; auto; contradiction.
Qed.

(** What the registry section leaves behind: the document with its
    prefixed name, and at most one new name, appended to both the
    in-memory list and the registry, and only if it was in neither. *)
Lemma Write_register_spec (doc : Document) (d : DocWriter) :
  exists new : list string,
    Write_register doc d =
      (mkDocument (Doc doc) (pre d ++ DB doc) (Coll doc),
       mkDocWriter (Ssn d) (pre d) (ImportWl d) (Whitelist d) (wchan d)
                   (wg d) (Meta d ++ new) (Databases d ++ new) (started d)) /\
    (new = [] /\ In (pre d ++ DB doc) (Databases d) \/
     new = [pre d ++ DB doc] /\ ~ In (pre d ++ DB doc) (Databases d)).
Proof.
  unfold Write_register, add_database. simpl.
  destruct (seen_loop (Databases d) (pre d ++ DB doc) false) eqn:E; simpl.
  - exists []. rewrite !app_nil_r. split; [destruct d; reflexivity|].
    left. split; [reflexivity|].
    apply seen_loop_true_iff in E. destruct E; [discriminate | assumption].
  - exists [pre d ++ DB doc]. split; [reflexivity|].
    right. split; [reflexivity|].
    intros Hin. assert (seen_loop (Databases d) (pre d ++ DB doc) false = true)
      by (apply seen_loop_true_iff; auto).
    congruence.
Qed.

Lemma Write_register_registered (doc : Document) (d : DocWriter) :
  In (DB (fst (Write_register doc d)))
     (Databases (snd (Write_register doc d))).
Proof.
  destruct (Write_register_spec doc d) as [new [-> H]]. simpl.
  apply in_or_app. destruct H as [[_ H] | [-> _]]; [left | right; left]; auto.
Qed.

Lemma Write_register_wchan (doc : Document) (d : DocWriter) :
  wchan (snd (Write_register doc d)) = wchan d.
Proof. destruct (Write_register_spec doc d) as [new [-> _]]. reflexivity. Qed.

(* ----------------------------------------------------------------- *)
(** ** The channel after [Flush]                                      *)
(* ----------------------------------------------------------------- *)

Lemma Flush_returns_closed (s s1 : System) :
  Flush s = Returns s1 ->
  Chan.closed (wchan (dw s1)) = true /\ flush s1 = FlushReturned.
Proof.
  unfold Flush, Flush_close, Flush_wait, Chan.close.
  destruct (Chan.closed (wchan (dw s))); [discriminate|]. simpl.
  destruct (wg (dw s) =? 0); [|discriminate].
  intros H. injection H as <-. split; reflexivity.
Qed.

(** On a closed channel [Write] registers the name and then panics. *)
Lemma Write_on_closed_channel (s : System) (doc : Document) :
  Chan.closed (wchan (dw s)) = true ->
  exists s2,
    Write doc s = Panics "send on closed channel" s2 /\
    panicked s2 = Some "send on closed channel" /\
    In (pre (dw s) ++ DB doc) (Databases (dw s2)) /\
    enqueued s2 = enqueued s /\
    wchan (dw s2) = wchan (dw s) /\
    (forall a, exec a s2 = None).
Proof.
  intros Hc. unfold Write.
  pose proof (Write_register_registered doc (dw s)) as Hreg.
  pose proof (Write_register_wchan doc (dw s)) as Hch.
  destruct (Write_register_spec doc (dw s)) as [new [E _]].
  rewrite E in *. simpl in Hreg, Hch.
  unfold Write_send, Chan.send. simpl. rewrite Hc.
  eexists. repeat split; try reflexivity. exact Hreg.
Qed.

(* ----------------------------------------------------------------- *)
(** ** Invariants of the running system                               *)
(* ----------------------------------------------------------------- *)

Lemma update_nth_split {A : Type} (i : nat) (l : list A) (w w' : A) :
  nth_error l i = Some w ->
  exists l1 l2, l = (l1 ++ w :: l2)%list /\
                update_nth i w' l = (l1 ++ w' :: l2)%list.
Proof.
  revert i; induction l as [|h t IH]; intros [|i] H; simpl in *;
    try discriminate.
  - injection H as ->. exists [], t. split; reflexivity.
  - destruct (IH i H) as [l1 [l2 [-> ->]]].
    exists (h :: l1), l2. split; reflexivity.
Qed.

Lemma remove_nth_incl {A : Type} (i : nat) (l : list A) (x : A) :
  In x (remove_nth i l) -> In x l.
Proof.
  revert i; induction l as [|h t IH]; intros [|i] H; simpl in *; auto.
  destruct H as [H | H]; [left; exact H | right; eapply IH; exact H].
Qed.

Lemma active_count_app (l1 l2 : list Worker) :
  active_count (l1 ++ l2) = (active_count l1 + active_count l2)%nat.
Proof. unfold active_count. rewrite filter_app, length_app. reflexivity. Qed.

Lemma active_count_repeat_spawned (n : nat) :
  active_count (repeat WSpawned n) = 0%nat.
Proof. induction n; [reflexivity | exact IHn]. Qed.

Lemma Resolved_config (d d' : DocWriter) (doc : Document) (evs : list Event) :
  Whitelist d' = Whitelist d -> ImportWl d' = ImportWl d ->
  Resolved d doc evs -> Resolved d' doc evs.
Proof.
  intros Hw Hi [H | H1 H2 H3 | H1 H2 H3].
  - apply R_inserted; assumption.
  - apply R_exhausted; assumption.
  - apply R_skipped; congruence.
Qed.

(** A resolved request stays resolved when the queue and the history grow
    and the configuration stays. *)
Lemma request_resolved_mono (s s' : System) (i : nat) :
  Whitelist (dw s') = Whitelist (dw s) ->
  ImportWl (dw s') = ImportWl (dw s) ->
  (exists l, enqueued s' = (enqueued s ++ l)%list) ->
  (exists h, history s' = (history s ++ h)%list) ->
  request_resolved s i -> request_resolved s' i.
Proof.
  intros Hw Hi [l Hl] [h Hh] [doc [evs [Hn [Hin Hr]]]].
  exists doc, evs. repeat split.
  - rewrite Hl. rewrite nth_error_app1; [exact Hn|].
    apply nth_error_Some. congruence.
  - rewrite Hh. apply in_or_app. left. exact Hin.
  - eapply Resolved_config; eassumption.
Qed.

Lemma request_held_mono (s s' : System) (i : nat) :
  (forall err j doc, In (WHolding err j doc) (workers s) ->
                     In (WHolding err j doc) (workers s')) ->
  (exists l, enqueued s' = (enqueued s ++ l)%list) ->
  request_held s i -> request_held s' i.
Proof.
  intros Hws [l Hl] [err [doc [Hin Hn]]].
  exists err, doc. split; [apply Hws; exact Hin|].
  rewrite Hl. rewrite nth_error_app1; [exact Hn|].
  apply nth_error_Some. congruence.
Qed.

Section Invariants.

Variable cfg : Resources.      (* what [New] was given *)
Variable dbs : list string.    (* what [GetDatabases] returned *)

Lemma Inv_boot :
  Inv cfg dbs (boot (New cfg dbs)).
Proof.
  constructor; simpl; try reflexivity; try lia.
  - intros [w [[] _]].
  - intros H; contradiction.
  - rewrite app_nil_r. reflexivity.
  - constructor.
Qed.

(** Closes the goals an action leaves as they were. *)
Ltac inv_frame H :=
  first [ exact (inv_pre H) | exact (inv_importwl H) | exact (inv_whitelist H)
        | exact (inv_cap H) | exact (inv_buf H) | exact (inv_ndeq H)
        | exact (inv_wg H) | exact (inv_left H) | exact (inv_flush H)
        | exact (inv_handled H) | exact (inv_databases H)
        | exact (inv_meta_nodup H) | exact (inv_meta_new H)
        | exact (inv_registered H) ].

(** A request handled before stays so when the queue, the history and the
    workers holding something are kept. *)
Ltac handled_mono H :=
  let i := fresh "i" in
  let Hi := fresh "Hi" in
  let Hr := fresh "Hr" in
  intros i Hi; destruct (inv_handled H i Hi) as [Hr | Hr];
  [ left; revert Hr; apply request_resolved_mono
  | right; revert Hr; apply request_held_mono ];
  simpl; auto;
  try first [ exists []; rewrite app_nil_r; reflexivity
            | eexists; reflexivity ].

Lemma Start_loop_eq (n : nat) (s : System) :
  Start_loop n s =
  mkSystem
    (mkDocWriter (Ssn (dw s)) (pre (dw s)) (ImportWl (dw s))
                 (Whitelist (dw s)) (wchan (dw s)) (wg (dw s)) (Meta (dw s))
                 (Databases (dw s))
                 (match n with O => started (dw s) | S _ => true end))
    (workers s ++ repeat WSpawned n) (sending s) (flush s) (panicked s)
    (enqueued s) (ndeq s) (history s) (starting s).
Proof.
  revert s; induction n as [|n IH]; intros s.
  - destruct s as [[] ? ? ? ? ? ? ? ?]; simpl. rewrite app_nil_r.
    reflexivity.
  - simpl. rewrite IH. simpl. rewrite <- app_assoc. simpl.
    destruct n; reflexivity.
Qed.

Lemma Inv_Start (count : Z) (s : System) :
  Inv cfg dbs s -> Inv cfg dbs (Start count s).
Proof.
  intros H. unfold Start.
  destruct (negb (started (dw s))); [|exact H].
  rewrite Start_loop_eq.
  constructor; simpl; try (inv_frame H).
  - rewrite active_count_app, active_count_repeat_spawned, Nat.add_0_r.
    exact (inv_wg H).
  - intros [w [Hin Hl]]. apply (inv_left H). exists w. split; [|exact Hl].
    apply in_app_or in Hin. destruct Hin as [Hin | Hin]; [exact Hin|].
    apply repeat_spec in Hin. subst. discriminate.
  - intros i Hi. destruct (inv_handled H i Hi) as [Hr | Hh].
    + left. revert Hr. apply request_resolved_mono; simpl; try reflexivity.
      * exists []. rewrite app_nil_r. reflexivity.
      * exists []. rewrite app_nil_r. reflexivity.
    + right. revert Hh. apply request_held_mono; simpl.
      * intros e j d Hw. apply in_or_app. left. exact Hw.
      * exists []. rewrite app_nil_r. reflexivity.
Qed.

Lemma Inv_Write_register
      (doc : Document) (s : System) :
  Inv cfg dbs s ->
  Inv cfg dbs (set_sending (sending s ++ [fst (Write_register doc (dw s))])
                           (set_dw (snd (Write_register doc (dw s))) s)).
Proof.
  intros H.
  destruct (Write_register_spec doc (dw s)) as [new [E Hnew]].
  rewrite E. simpl.
  assert (Hdb : Databases (dw s) = (dbs ++ Meta (dw s))%list)
    by exact (inv_databases H).
  constructor; simpl; try (inv_frame H).
  - intros i Hi. destruct (inv_handled H i Hi) as [Hr | Hh].
    + left. revert Hr. apply request_resolved_mono; simpl; try reflexivity.
      * exists []. rewrite app_nil_r. reflexivity.
      * exists []. rewrite app_nil_r. reflexivity.
    + right. revert Hh. apply request_held_mono; simpl.
      * auto.
      * exists []. rewrite app_nil_r. reflexivity.
  - rewrite Hdb, app_assoc. reflexivity.
  - destruct Hnew as [[-> _] | [-> Hnot]].
    + rewrite app_nil_r. exact (inv_meta_nodup H).
    + apply NoDup_app.
      * exact (inv_meta_nodup H).
      * constructor; [intros [] | constructor].
      * intros x Hx [Hx' | []]. subst. apply Hnot. rewrite Hdb.
        apply in_or_app. right. exact Hx.
  - intros x Hx. apply in_app_or in Hx. destruct Hx as [Hx | Hx].
    + apply (inv_meta_new H). exact Hx.
    + destruct Hnew as [[-> _] | [-> Hnot]]; [destruct Hx|].
      destruct Hx as [<- | []]. intros Hin. apply Hnot. rewrite Hdb.
      apply in_or_app. left. exact Hin.
  - intros d [Hd | Hd].
    + apply in_app_or in Hd. destruct Hd as [Hd | [<- | []]].
      * apply in_or_app. left. apply (inv_registered H). left. exact Hd.
      * simpl. apply in_or_app.
        destruct Hnew as [[-> Hin] | [-> _]];
          [left; exact Hin | right; left; reflexivity].
    + apply in_or_app. left. apply (inv_registered H). right. exact Hd.
Qed.

Lemma Inv_set_panicked (msg : string)
      (s : System) :
  Inv cfg dbs s -> Inv cfg dbs (set_panicked msg s).
Proof. intros H. constructor; simpl; inv_frame H. Qed.

Lemma Inv_set_starting (l : list Starter) (s : System) :
  Inv cfg dbs s -> Inv cfg dbs (set_starting l s).
Proof. intros H. constructor; simpl; inv_frame H. Qed.

(** A statement of the loop of [Start]: the flag, or one more goroutine
    that has not run yet. *)
Lemma Inv_Start_next (st st' : Starter) (s s1 : System) :
  Inv cfg dbs s -> Start_next st s = Some (st', s1) -> Inv cfg dbs s1.
Proof.
  intros H. unfold Start_next.
  destruct (passes_left st); [discriminate|].
  destruct (flag_assigned st); intros E; injection E as _ <-.
  - constructor; simpl; try (inv_frame H).
    + rewrite active_count_app.
      change (active_count [WSpawned]) with 0%nat. rewrite Nat.add_0_r.
      exact (inv_wg H).
    + intros [w [Hin Hl]]. apply (inv_left H). exists w. split; [|exact Hl].
      apply in_app_or in Hin. destruct Hin as [Hin | [<- | []]];
        [exact Hin | discriminate].
    + intros i Hi. destruct (inv_handled H i Hi) as [Hr | Hh].
      * left. revert Hr. apply request_resolved_mono; simpl; try reflexivity.
        -- exists []. rewrite app_nil_r. reflexivity.
        -- exists []. rewrite app_nil_r. reflexivity.
      * right. revert Hh. apply request_held_mono; simpl.
        -- intros e j d Hw. apply in_or_app. left. exact Hw.
        -- exists []. rewrite app_nil_r. reflexivity.
  - constructor; simpl; try (inv_frame H). handled_mono H.
Qed.

Lemma Inv_set_flush (f : FlushState)
      (s : System) :
  Chan.closed (wchan (dw s)) = true ->
  Inv cfg dbs s -> Inv cfg dbs (set_flush f s).
Proof.
  intros Hc H. constructor; simpl; try (inv_frame H).
  intros _. exact Hc.
Qed.

Lemma skipn_cons_inv {A : Type} (n : nat) (l : list A) (x : A) (r : list A) :
  skipn n l = x :: r ->
  skipn (S n) l = r /\ nth_error l n = Some x /\ (n < List.length l)%nat.
Proof.
  revert l; induction n as [|n IH]; intros l H.
  - simpl in H. subst. simpl. repeat split. lia.
  - destruct l as [|h t]; [discriminate|]. simpl in H.
    destruct (IH t H) as [H1 [H2 H3]]. repeat split; simpl; auto. lia.
Qed.

Lemma Inv_Write_send (n : nat)
      (doc : Document) (s s' : System) :
  Inv cfg dbs s ->
  nth_error (sending s) n = Some doc ->
  Write_send doc s = Returns s' ->
  Inv cfg dbs (set_sending (remove_nth n (sending s)) s').
Proof.
  intros H Hn. unfold Write_send, Chan.send.
  destruct (Chan.closed (wchan (dw s))) eqn:Hc; [discriminate|].
  destruct (Chan.len (wchan (dw s)) <? Chan.cap (wchan (dw s)))%nat;
    [|discriminate].
  intros E. injection E as <-.
  constructor; simpl; try (inv_frame H).
  - rewrite skipn_app, (inv_buf H).
    replace (ndeq s - List.length (enqueued s))%nat with 0%nat
      by (pose proof (inv_ndeq H); lia).
    reflexivity.
  - rewrite length_app. pose proof (inv_ndeq H). lia.
  - intros Hex. apply (inv_left H) in Hex. destruct Hex as [Hex _].
    congruence.
  - intros Hf. apply (inv_flush H) in Hf. congruence.
  - intros i Hi. destruct (inv_handled H i Hi) as [Hr | Hh].
    + left. revert Hr. apply request_resolved_mono; simpl; try reflexivity.
      * eexists; reflexivity.
      * exists []. rewrite app_nil_r. reflexivity.
    + right. revert Hh. apply request_held_mono; simpl.
      * auto.
      * eexists; reflexivity.
  - intros d [Hd | Hd].
    + apply (inv_registered H). left. eapply remove_nth_incl; exact Hd.
    + apply in_app_or in Hd. destruct Hd as [Hd | [<- | []]].
      * apply (inv_registered H). right. exact Hd.
      * apply (inv_registered H). left. eapply nth_error_In; exact Hn.
Qed.

Lemma Inv_Flush_close (s s' : System) :
  Inv cfg dbs s ->
  Flush_close s = Returns s' ->
  Inv cfg dbs s'.
Proof.
  intros H. unfold Flush_close, Chan.close.
  destruct (Chan.closed (wchan (dw s))) eqn:Hc; [discriminate|].
  intros E. injection E as <-.
  constructor; simpl; try (inv_frame H).
  - intros Hex. apply (inv_left H) in Hex. destruct Hex as [Hex _].
    congruence.
  - reflexivity.
  - handled_mono H.
Qed.

(** Membership in a worker list one position of which was replaced. *)
Lemma In_replaced (l1 l2 : list Worker) (w w' x : Worker) :
  In x (l1 ++ w' :: l2) -> x = w' \/ In x (l1 ++ w :: l2).
Proof.
  intros H. apply in_app_or in H. destruct H as [H | [H | H]].
  - right. apply in_or_app. left. exact H.
  - left. symmetry. exact H.
  - right. apply in_or_app. right. right. exact H.
Qed.


Lemma worker_step_workers (ins : InsertResults) (w w' : Worker)
      (s s1 : System) :
  worker_step ins w s = Some (w', s1) -> workers s1 = workers s.
Proof.
  destruct w; simpl.
  - intros E; injection E as _ <-; reflexivity.
  - destruct (Chan.recv (wchan (dw s))); intros E; try discriminate;
      injection E as _ <-; reflexivity.
  - destruct (Ssn (dw s)); [destruct (writeLoop_body (dw s) err doc ins)|];
      intros E; injection E as _ <-; reflexivity.
  - intros E; injection E as _ <-; reflexivity.
  - discriminate.
Qed.

Lemma Inv_worker (ins : InsertResults)
      (s s1 : System) (l1 l2 : list Worker) (w w' : Worker) :
  Inv cfg dbs s ->
  workers s = (l1 ++ w :: l2)%list ->
  worker_step ins w s = Some (w', s1) ->
  Inv cfg dbs (set_workers (l1 ++ w' :: l2) s1).
Proof.
  intros H Hws Hstep.
  assert (Hleft : forall x, left_loop w = left_loop x \/ left_loop x = false ->
            (exists y, In y (l1 ++ x :: l2) /\ left_loop y = true) ->
            exists y, In y (workers s) /\ left_loop y = true).
  { intros x Hx [y [Hy Hl]]. rewrite Hws.
    destruct (In_replaced l1 l2 w x y Hy) as [-> | Hin].
    - exists w. split; [apply in_elt|]. destruct Hx; congruence.
    - exists y. split; assumption. }
  assert (Hkeep : forall x err j doc,
            (forall e d, w <> WHolding e j d) ->
            In (WHolding err j doc) (workers s) ->
            In (WHolding err j doc) (l1 ++ x :: l2)).
  { intros x err j doc Hne Hin. rewrite Hws in Hin.
    destruct (In_replaced l1 l2 x w _ Hin) as [E | Hin']; [|exact Hin'].
    exfalso. eapply Hne. symmetry. exact E. }
  assert (Hact : forall x,
            active_count (l1 ++ x :: l2) =
            (active_count l1 + (active_count [x] + active_count l2))%nat).
  { intros x. rewrite active_count_app.
    change (x :: l2) with ([x] ++ l2)%list. rewrite active_count_app.
    reflexivity. }
  pose proof (inv_wg H) as Hwg. rewrite Hws, Hact in Hwg.
  destruct w; simpl in Hstep.
  - (* wg.Add(1) *)
    injection Hstep as <- <-.
    constructor; simpl; try (inv_frame H).
    + rewrite Hact, Hwg. unfold active_count; simpl. lia.
    + intros Hex. apply (inv_left H). revert Hex. apply Hleft. auto.
    + handled_mono H. intros e j d. apply Hkeep. intros; discriminate.
  - (* receive *)
    destruct (Chan.recv (wchan (dw s))) as [doc c' | |] eqn:Hrecv;
      try discriminate; injection Hstep as <- <-.
    + unfold Chan.recv in Hrecv.
      destruct (Chan.buf (wchan (dw s))) as [|doc0 rest] eqn:Hbuf;
        [destruct (Chan.closed (wchan (dw s))); discriminate|].
      injection Hrecv as -> <-.
      rewrite (inv_buf H) in Hbuf.
      destruct (skipn_cons_inv _ _ _ _ Hbuf) as [Hrest [Hnth Hlt]].
      constructor; simpl; try (inv_frame H).
      * symmetry. exact Hrest.
      * lia.
      * rewrite Hact, Hwg. reflexivity.
      * intros Hex. exfalso.
        assert (Hex' : exists y, In y (workers s) /\ left_loop y = true)
          by (revert Hex; apply Hleft; auto).
        apply (inv_left H) in Hex'. destruct Hex' as [_ Hnil].
        rewrite (inv_buf H), Hbuf in Hnil. discriminate.
      * intros i Hi. assert (Hcase : (i < ndeq s)%nat \/ i = ndeq s) by lia.
        destruct Hcase as [Hi' | ->].
        -- destruct (inv_handled H i Hi') as [Hr | [e [d [Hin Hn]]]].
           ++ left. revert Hr.
              apply request_resolved_mono; simpl; try reflexivity;
                exists []; rewrite app_nil_r; reflexivity.
           ++ right. exists e, d. split; [|exact Hn]. simpl.
              apply Hkeep; [intros; discriminate | exact Hin].
        -- right. exists err, doc. split; [simpl; apply in_elt | exact Hnth].
    + constructor; simpl; try (inv_frame H).
      * rewrite Hact, Hwg. reflexivity.
      * intros _. unfold Chan.recv in Hrecv.
        destruct (Chan.buf (wchan (dw s))); [|discriminate].
        destruct (Chan.closed (wchan (dw s))); [|discriminate].
        split; reflexivity.
      * handled_mono H. intros e j d. apply Hkeep. intros; discriminate.
  - (* the rest of the iteration *)
    destruct (Ssn (dw s)) eqn:Hssn;
      [|injection Hstep as <- <-; rewrite <- Hws;
        apply (Inv_set_panicked "Session already closed" s H)].
    pose proof (writeLoop_body_resolved (dw s) err doc ins) as Hres.
    destruct (writeLoop_body (dw s) err doc ins) as [err' evs].
    simpl in Hres. injection Hstep as <- <-.
    constructor; simpl; try (inv_frame H).
    + rewrite Hact, Hwg. reflexivity.
    + intros Hex. apply (inv_left H). revert Hex. apply Hleft. auto.
    + intros i Hi. destruct (inv_handled H i Hi) as [Hr | [e [d [Hin Hn]]]].
      * left. revert Hr.
        apply request_resolved_mono; simpl; try reflexivity;
          [exists []; rewrite app_nil_r; reflexivity | eexists; reflexivity].
      * rewrite Hws in Hin.
        destruct (In_replaced l1 l2 (WReading err') (WHolding err idx doc) _ Hin)
          as [E | Hin'].
        -- injection E as -> -> ->. left. exists doc, evs. simpl.
           repeat split; [exact Hn | apply in_elt | exact Hres].
        -- right. exists e, d. split; [exact Hin' | exact Hn].
  - (* wg.Done() *)
    injection Hstep as <- <-.
    constructor; simpl; try (inv_frame H).
    + rewrite Hact. unfold active_count in *; simpl in *. lia.
    + intros _. apply (inv_left H). exists WExiting. rewrite Hws.
      split; [apply in_elt | reflexivity].
    + handled_mono H. intros e j d. apply Hkeep. intros; discriminate.
  - discriminate.
Qed.

Lemma Inv_exec (a : Action)
      (s s' : System) :
  Inv cfg dbs s -> exec a s = Some s' -> Inv cfg dbs s'.
Proof.
  intros H. unfold exec.
  destruct (panicked s); [discriminate|].
  destruct a as [count | count | k | doc | n | | | i ins].
  - intros E; injection E as <-. apply Inv_Start; exact H.
  - intros E; injection E as <-. unfold Start_enter.
    destruct (negb (started (dw s))); [apply Inv_set_starting|]; exact H.
  - destruct (nth_error (starting s) k) as [st|]; [|discriminate].
    destruct (Start_next st s) as [[st' s1]|] eqn:Hnext; [|discriminate].
    intros E; injection E as <-. apply Inv_set_starting.
    eapply Inv_Start_next; eassumption.
  - pose proof (Inv_Write_register doc s H) as H'.
    destruct (Write_register doc (dw s)) as [doc' d'].
    intros E; injection E as <-. exact H'.
  - destruct (nth_error (sending s) n) as [doc|] eqn:Hn; [|discriminate].
    destruct (Write_send doc s) as [s1 | s1 | msg s1] eqn:Hsend;
      try discriminate; intros E; injection E as <-.
    + eapply Inv_Write_send; eassumption.
    + unfold Write_send in Hsend.
      destruct (Chan.send (wchan (dw s)) doc); try discriminate.
      injection Hsend as _ <-. apply Inv_set_panicked; exact H.
  - destruct (flush s); try discriminate;
      (destruct (Flush_close s) as [s1 | s1 | msg s1] eqn:Hclose;
       try discriminate; intros E; injection E as <-;
       [ eapply Inv_Flush_close; eassumption
       | unfold Flush_close in Hclose;
         destruct (Chan.close (wchan (dw s))); try discriminate;
         injection Hclose as _ <-; apply Inv_set_panicked; exact H ]).
  - destruct (flush s) eqn:Hf; try discriminate.
    unfold Flush_wait. destruct (wg (dw s) =? 0); [|discriminate].
    intros E; injection E as <-.
    apply Inv_set_flush; [|exact H].
    apply (inv_flush H). rewrite Hf. discriminate.
  - destruct (nth_error (workers s) i) as [w|] eqn:Hn; [|discriminate].
    destruct (worker_step ins w s) as [[w' s1]|] eqn:Hstep; [|discriminate].
    intros E; injection E as <-.
    rewrite (worker_step_workers _ _ _ _ _ Hstep).
    destruct (update_nth_split i (workers s) w w' Hn) as [l1 [l2 [Hws ->]]].
    eapply Inv_worker; eassumption.
Qed.

Lemma reachable_Inv (s : System) :
  reachable cfg dbs s -> Inv cfg dbs s.
Proof.
  induction 1 as [|s a s' _ IH E]; [apply Inv_boot|].
  eapply Inv_exec; eassumption.
Qed.

Lemma run_reachable
      (sched : list Action) (s s' : System) :
  reachable cfg dbs s -> run sched s = Some s' -> reachable cfg dbs s'.
Proof.
  revert s; induction sched as [|a rest IH]; intros s Hs; simpl.
  - intros E; injection E as <-. exact Hs.
  - destruct (exec a s) as [s1|] eqn:E; [|discriminate].
    apply IH. eapply reach_step; eassumption.
Qed.

End Invariants.

(* ----------------------------------------------------------------- *)
(** ** The calls of one goroutine as actions of the system            *)
(* ----------------------------------------------------------------- *)

Lemma remove_nth_last {A : Type} (l : list A) (x : A) :
  remove_nth (List.length l) (l ++ [x]) = l.
Proof.
  induction l as [|h t IH]; simpl; [reflexivity | rewrite IH; reflexivity].
Qed.

Lemma nth_error_last {A : Type} (l : list A) (x : A) :
  nth_error (l ++ [x]) (List.length l) = Some x.
Proof. induction l as [|h t IH]; simpl; [reflexivity | exact IH]. Qed.

(** A [Write] that returns is its registry section followed by its send. *)
Lemma Write_as_actions (doc : Document) (s s' : System) :
  panicked s = None ->
  Write doc s = Returns s' ->
  run [ActWriteRegister doc; ActWriteSend (List.length (sending s))] s
  = Some s'.
Proof.
  intros Hp. unfold Write, run, exec. rewrite Hp.
  destruct (Write_register doc (dw s)) as [doc' d']. simpl. rewrite Hp.
  rewrite nth_error_last.
  unfold Write_send. simpl.
  destruct (Chan.send (wchan d') doc'); try discriminate.
  intros E; injection E as <-. simpl. rewrite remove_nth_last.
  destruct s; reflexivity.
Qed.

(** A [Flush] that returns is its close followed by the end of its wait. *)
Lemma Flush_as_actions (s s' : System) :
  panicked s = None ->
  flush s <> FlushWaiting ->
  Flush s = Returns s' ->
  run [ActFlushClose; ActFlushWait] s = Some s'.
Proof.
  intros Hp Hf. unfold Flush, run, exec. rewrite Hp.
  unfold Flush_close.
  destruct (Chan.close (wchan (dw s))) as [c'|];
    [|destruct (flush s); discriminate].
  unfold Flush_wait. simpl.
  destruct (wg (dw s) =? 0) eqn:Hwg; [|destruct (flush s); discriminate].
  intros E; injection E as <-.
  destruct (flush s); try contradiction; simpl; rewrite Hp, Hwg; reflexivity.
Qed.

(** When [Write] returns, the document is in the channel under its
    prefixed name and that name is registered. *)
Lemma Write_returns_registered (doc : Document) (s s' : System) :
  Write doc s = Returns s' ->
  In (pre (dw s) ++ DB doc) (Databases (dw s')) /\
  enqueued s' =
    (enqueued s ++ [mkDocument (Doc doc) (pre (dw s) ++ DB doc) (Coll doc)])%list.
Proof.
  unfold Write.
  pose proof (Write_register_registered doc (dw s)) as Hreg.
  destruct (Write_register_spec doc (dw s)) as [new [E _]].
  rewrite E in *. simpl in Hreg.
  unfold Write_send. simpl.
  match goal with |- context [Chan.send ?c ?d] => destruct (Chan.send c d) end;
    try discriminate.
  intros H; injection H as <-. simpl. split; [exact Hreg | reflexivity].
Qed.

(** No action of the system resets the [started] flag. *)
Lemma started_monotone (a : Action) (s s' : System) :
  exec a s = Some s' ->
  started (dw s) = true -> started (dw s') = true.
Proof.
  intros E Hs. unfold exec in E. destruct (panicked s); [discriminate|].
  destruct a as [count | count | k | doc | n | | | i ins].
  - injection E as <-. apply Start_started_mono. exact Hs.
  - injection E as <-. unfold Start_enter.
    destruct (negb (started (dw s))); exact Hs.
  - destruct (nth_error (starting s) k) as [st|]; [|discriminate].
    unfold Start_next in E. destruct (passes_left st); [discriminate|].
    destruct (flag_assigned st); injection E as <-;
      [exact Hs | reflexivity].
  - destruct (Write_register_spec doc (dw s)) as [new [Hreg _]].
    rewrite Hreg in E. injection E as <-. exact Hs.
  - destruct (nth_error (sending s) n) as [doc|]; [|discriminate].
    unfold Write_send in E.
    destruct (Chan.send (wchan (dw s)) doc); try discriminate;
      injection E as <-; exact Hs.
  - unfold Flush_close in E.
    destruct (flush s); try discriminate;
      destruct (Chan.close (wchan (dw s))); injection E as <-; exact Hs.
  - unfold Flush_wait in E. destruct (flush s); try discriminate.
    destruct (wg (dw s) =? 0); [|discriminate].
    injection E as <-. exact Hs.
  - destruct (nth_error (workers s) i) as [w|]; [|discriminate].
    destruct w; simpl in E.
    + injection E as <-. exact Hs.
    + destruct (Chan.recv (wchan (dw s))); try discriminate;
        injection E as <-; exact Hs.
    + destruct (Ssn (dw s));
        [destruct (writeLoop_body (dw s) err doc ins)|];
        injection E as <-; exact Hs.
    + injection E as <-. exact Hs.
    + discriminate.
Qed.

(* ----------------------------------------------------------------- *)
(** ** [Write] after [Flush]                                          *)
(* ----------------------------------------------------------------- *)

(** C3, as the specification states it, fails: after an orderly shutdown
    ([Flush] has returned), [Write] does not fail with an error value; the
    send on the closed channel panics and takes the process down. *)
Lemma C3_counterexample :
  option_map (fun s1 => (flush s1, panic_message (Write other_doc s1)))
             (run clean_shutdown (boot (New sample_cfg [])))
  = Some (FlushReturned, Some "send on closed channel").
Proof. vm_compute. reflexivity. Qed.

(** C3, amended.  If [Write] is called after [Flush] has returned (in the
    state [Flush] returned in, or in any state the system is in later),
    the registry section still runs (the database name is registered), and
    then the send on the closed channel raises the run-time panic "send on
    closed channel": the document is not enqueued, [Write] returns no
    error value (it has none), nothing recovers the panic, and no
    goroutine of the process runs afterwards. *)
Theorem C3_Write_after_Flush_panics (s : System) (doc : Document) :
  (exists s0, Flush s0 = Returns s) \/
  (exists cfg dbs, reachable cfg dbs s /\ flush s = FlushReturned) ->
  exists s2,
    Write doc s = Panics "send on closed channel" s2 /\
    panicked s2 = Some "send on closed channel" /\
    In (pre (dw s) ++ DB doc) (Databases (dw s2)) /\
    enqueued s2 = enqueued s /\
    wchan (dw s2) = wchan (dw s) /\
    (forall a, exec a s2 = None).
Proof.
  intros H. apply Write_on_closed_channel.
  destruct H as [[s0 HF] | [cfg [dbs [Hr Hf]]]].
  - apply Flush_returns_closed in HF. tauto.
  - apply reachable_Inv in Hr. apply (inv_flush Hr).
    rewrite Hf. discriminate.
Qed.

Lemma C3_Write_after_Flush_witness :
  ((exists s0, Flush s0 = Returns flushed_idle) \/
   (exists cfg dbs,
       reachable cfg dbs flushed_idle /\ flush flushed_idle = FlushReturned))
  /\
  exists s2,
    Write sample_doc flushed_idle = Panics "send on closed channel" s2 /\
    panicked s2 = Some "send on closed channel" /\
    In (pre (dw flushed_idle) ++ DB sample_doc) (Databases (dw s2)) /\
    enqueued s2 = enqueued flushed_idle /\
    wchan (dw s2) = wchan (dw flushed_idle) /\
    (forall a, exec a s2 = None).
Proof.
  assert (H : (exists s0, Flush s0 = Returns flushed_idle) \/
              (exists cfg dbs, reachable cfg dbs flushed_idle /\
                               flush flushed_idle = FlushReturned)).
  { left. exists (boot (New sample_cfg [])). reflexivity. }
  split; [exact H|].
  apply (C3_Write_after_Flush_panics flushed_idle sample_doc H).
Defined.

(* ----------------------------------------------------------------- *)
(** ** The database registry                                          *)
(* ----------------------------------------------------------------- *)

(** C7, as the specification states it, fails: [New] takes the list
    [GetDatabases] returns as it is, and when that list names a database
    twice the in-memory list holds the duplicate from the start and keeps
    it through every [Write]. *)
Lemma C7_counterexample :
  run [ActWriteRegister sample_doc; ActWriteSend 0]
      (boot (New sample_cfg ["rita-day1"; "rita-day1"]))
  = Some repeated_seed_state /\
  reachable sample_cfg ["rita-day1"; "rita-day1"] repeated_seed_state /\
  Databases (dw repeated_seed_state) = ["rita-day1"; "rita-day1"] /\
  count_occ string_dec (Databases (dw repeated_seed_state)) "rita-day1"
  = 2%nat /\
  ~ NoDup (Databases (dw repeated_seed_state)).
Proof.
  assert (Hrun : run [ActWriteRegister sample_doc; ActWriteSend 0]
                     (boot (New sample_cfg ["rita-day1"; "rita-day1"]))
                 = Some repeated_seed_state) by (vm_compute; reflexivity).
  split; [exact Hrun|].
  split; [eapply run_reachable; [apply reach_boot | exact Hrun]|].
  split; [reflexivity|].
  split; [reflexivity|].
  intros Hnd. apply (proj1 (NoDup_count_occ string_dec _)) with
    (x := "rita-day1"%string) in Hnd.
  vm_compute in Hnd. lia.
Qed.

(** C7, amended.  In every state the writer can reach, under any
    interleaving of producers, workers and [Flush]: each database name has
    been passed to [AddNewDB] at most once, and never if [GetDatabases]
    had listed it; the in-memory list is the list [GetDatabases] returned
    followed by exactly those names, so [Write] appended each name at most
    once and never a name the list already had: a name [GetDatabases]
    listed is in it as often as [GetDatabases] listed it, any other name
    at most once, and the list has no duplicates when the one
    [GetDatabases] returned has none; and the name of every document that
    is past the registry section of [Write] (standing at the send, or
    enqueued) is in the list and, when new, in the registry: the
    registration comes before [Write] returns, and a [Write] that returns
    leaves a state with all of the above and the name of its document in
    the list. *)
Theorem C7_database_registered_once
        (cfg : Resources) (dbs : list string) (s : System) :
  reachable cfg dbs s ->
  (forall name, (count_occ string_dec (Meta (dw s)) name <= 1)%nat) /\
  (forall name, In name dbs ->
                count_occ string_dec (Meta (dw s)) name = 0%nat) /\
  Databases (dw s) = (dbs ++ Meta (dw s))%list /\
  (forall name, In name dbs ->
                count_occ string_dec (Databases (dw s)) name
                = count_occ string_dec dbs name) /\
  (forall name, ~ In name dbs ->
                (count_occ string_dec (Databases (dw s)) name <= 1)%nat) /\
  (NoDup dbs -> NoDup (Databases (dw s))) /\
  (forall doc, In doc (sending s) \/ In doc (enqueued s) ->
               In (DB doc) (Databases (dw s)) /\
               (In (DB doc) dbs \/ In (DB doc) (Meta (dw s)))) /\
  (forall doc s1, panicked s = None -> Write doc s = Returns s1 ->
                  reachable cfg dbs s1 /\
                  In (pre (dw s) ++ DB doc) (Databases (dw s1))).
Proof.
  intros Hr.
  assert (Hseq : forall doc s1, panicked s = None -> Write doc s = Returns s1 ->
                  reachable cfg dbs s1 /\
                  In (pre (dw s) ++ DB doc) (Databases (dw s1))).
  { intros doc s1 Hp HW. split.
    - eapply run_reachable; [exact Hr | apply Write_as_actions; eassumption].
    - apply (Write_returns_registered doc s s1 HW). }
  apply reachable_Inv in Hr.
  assert (Hone : forall name,
             (count_occ string_dec (Meta (dw s)) name <= 1)%nat).
  { apply (proj1 (NoDup_count_occ string_dec _)). exact (inv_meta_nodup Hr). }
  assert (Hnew : forall name, In name dbs ->
             count_occ string_dec (Meta (dw s)) name = 0%nat).
  { intros name Hin. apply count_occ_not_In. intros Hm.
    exact (inv_meta_new Hr name Hm Hin). }
  split; [exact Hone|].
  split; [exact Hnew|].
  split; [exact (inv_databases Hr)|].
  split; [|split; [|split; [|split; [|exact Hseq]]]].
  - intros name Hin. rewrite (inv_databases Hr), count_occ_app.
    rewrite (Hnew name Hin). lia.
  - intros name Hout. rewrite (inv_databases Hr), count_occ_app.
    rewrite (proj1 (count_occ_not_In string_dec dbs name) Hout).
    apply Hone.
  - intros Hnd. rewrite (inv_databases Hr). apply NoDup_app.
    + exact Hnd.
    + exact (inv_meta_nodup Hr).
    + intros a Ha Hm. exact (inv_meta_new Hr a Hm Ha).
  - intros doc Hdoc. split.
    + apply (inv_registered Hr). assumption.
    + apply in_app_or. rewrite <- (inv_databases Hr).
      apply (inv_registered Hr). assumption.
Qed.

Lemma C7_database_registered_witness :
  reachable sample_cfg ["rita-day2"] racing_state /\
  List.length (enqueued racing_state) = 5%nat /\
  Meta (dw racing_state) = ["rita-day1"; "rita-day3"] /\
  Databases (dw racing_state) = ["rita-day2"; "rita-day1"; "rita-day3"] /\
  (forall name,
      (count_occ string_dec (Meta (dw racing_state)) name <= 1)%nat).
Proof.
  assert (H : reachable sample_cfg ["rita-day2"] racing_state).
  { apply (run_reachable sample_cfg ["rita-day2"] racing_producers
                         (boot (New sample_cfg ["rita-day2"]))).
    - apply reach_boot.
    - vm_compute. reflexivity. }
  split; [exact H|].
  split; [reflexivity|].
  split; [reflexivity|].
  split; [reflexivity|].
  apply (C7_database_registered_once sample_cfg ["rita-day2"] racing_state H).
Defined.

(* ----------------------------------------------------------------- *)
(** ** The requests at the return of [Flush]                          *)
(* ----------------------------------------------------------------- *)

(** What an operation of a worker leaves untouched. *)
Lemma worker_step_frame (ins : InsertResults) (w w' : Worker) (s s1 : System) :
  worker_step ins w s = Some (w', s1) ->
  enqueued s1 = enqueued s /\
  flush s1 = flush s /\
  sending s1 = sending s /\
  Chan.closed (wchan (dw s1)) = Chan.closed (wchan (dw s)).
Proof.
  destruct w; simpl.
  - intros E; injection E as _ <-; repeat split.
  - unfold Chan.recv.
    destruct (Chan.buf (wchan (dw s)));
      [destruct (Chan.closed (wchan (dw s))) eqn:Hc|];
      intros E; try discriminate; injection E as _ <-; repeat split;
      exact Hc.
  - destruct (Ssn (dw s)); [destruct (writeLoop_body (dw s) err doc ins)|];
      intros E; injection E as _ <-; repeat split.
  - intros E; injection E as _ <-; repeat split.
  - discriminate.
Qed.

Lemma exec_worker_inv (i : nat) (ins : InsertResults) (s s' : System) :
  exec (ActWorker i ins) s = Some s' ->
  panicked s = None /\
  exists w w' s1 l1 l2,
    workers s = (l1 ++ w :: l2)%list /\
    List.length l1 = i /\
    worker_step ins w s = Some (w', s1) /\
    s' = set_workers (l1 ++ w' :: l2) s1.
Proof.
  unfold exec. destruct (panicked s); [discriminate|].
  destruct (nth_error (workers s) i) as [w|] eqn:Hn; [|discriminate].
  destruct (worker_step ins w s) as [[w' s1]|] eqn:Hstep; [|discriminate].
  intros E; injection E as <-. split; [reflexivity|].
  rewrite (worker_step_workers _ _ _ _ _ Hstep).
  destruct (nth_error_split _ _ Hn) as [l1 [l2 [Hws Hlen]]].
  exists w, w', s1, l1, l2. repeat split; try assumption.
  f_equal. rewrite Hws. rewrite <- Hlen. clear.
  induction l1 as [|h t IH]; simpl; [reflexivity | rewrite IH; reflexivity].
Qed.

(** When every worker has stopped, and there is one, the channel is empty
    and every request ever enqueued is resolved. *)
Lemma stopped_all_resolved (cfg : Resources) (dbs : list string) (s : System) :
  Inv cfg dbs s ->
  workers s <> [] ->
  all_stopped s = true ->
  ndeq s = List.length (enqueued s) /\
  forall i, (i < List.length (enqueued s))%nat -> request_resolved s i.
Proof.
  intros H Hne Hall. unfold all_stopped in Hall.
  rewrite forallb_forall in Hall.
  assert (Hempty : Chan.buf (wchan (dw s)) = []).
  { destruct (workers s) as [|w ws] eqn:Hws; [contradiction|].
    apply (inv_left H). exists w. rewrite Hws. split; [left; reflexivity|].
    specialize (Hall w (or_introl eq_refl)).
    destruct w; try discriminate; reflexivity. }
  rewrite (inv_buf H) in Hempty.
  assert (Hn : ndeq s = List.length (enqueued s)).
  { pose proof (inv_ndeq H). apply (f_equal (@List.length _)) in Hempty.
    rewrite length_skipn in Hempty. simpl in Hempty. lia. }
  split; [exact Hn|].
  intros i Hi. rewrite <- Hn in Hi.
  destruct (inv_handled H i Hi) as [Hr | [e [d [Hin _]]]]; [exact Hr|].
  apply Hall in Hin. discriminate.
Qed.

(** C1, as the specification states it, fails on a writer no worker was
    started on: [Write] enqueues the request, [Flush] closes the channel
    and returns at once (the WaitGroup counter is 0), and the request
    stays in the channel: not inserted, not logged, not skipped, and with
    no goroutine that could ever take it. *)
Lemma C1_counterexample :
  match Write sample_doc (boot (New sample_cfg [])) with
  | Returns s1 => Flush s1 = Returns abandoned_state
  | _ => False
  end /\
  run [ActWriteRegister sample_doc; ActWriteSend 0; ActFlushClose;
       ActFlushWait] (boot (New sample_cfg [])) = Some abandoned_state /\
  flush abandoned_state = FlushReturned /\
  request_queued abandoned_state 0 /\
  ~ request_resolved abandoned_state 0 /\
  (forall i ins, exec (ActWorker i ins) abandoned_state = None).
Proof.
  split; [reflexivity|].
  split; [vm_compute; reflexivity|].
  split; [reflexivity|].
  split; [unfold request_queued; simpl; lia|].
  split.
  - intros [doc [evs [_ [[] _]]]].
  - intros [|i] ins; reflexivity.
Qed.

Lemma active_count_zero (ws : list Worker) :
  active_count ws = 0%nat -> forall w, In w ws -> is_active w = false.
Proof.
  unfold active_count. induction ws as [|x ws IH]; intros H0 w Hin;
    [destruct Hin|].
  simpl in H0. destruct (is_active x) eqn:Ex; [discriminate|].
  destruct Hin as [<- | Hin]; [exact Ex | apply IH; assumption].
Qed.

(** C1, amended.  For every sequence of [Write] calls followed by
    [Flush], under any interleaving of the producers, the workers and the
    calls of [Start], on a writer with at least one worker launched, in
    the runs where a launched worker has got past its [d.wg.Add(1)] when
    [d.wg.Wait()] lets [Flush] return: at the return of [Flush] the
    channel is empty, no worker holds a request, and every request that
    was enqueued has been handled by a worker, its handling ending with
    the document inserted at least once, or with no insert succeeding and
    exactly 5 retry attempts each logged (falloff 0..4), or with no
    insert attempted because the document is filtered and the import
    override is off.  (A return of [Flush] before any launched worker has
    got that far is the subject of C2.) *)
Theorem C1_requests_resolved_at_Flush_return
        (cfg : Resources) (dbs : list string) (s s' : System) :
  reachable cfg dbs s ->
  exec ActFlushWait s = Some s' ->
  (exists w, In w (workers s) /\ is_spawned w = false) ->
  flush s' = FlushReturned /\
  Chan.buf (wchan (dw s')) = [] /\
  ndeq s' = List.length (enqueued s') /\
  (forall i, ~ request_held s' i) /\
  (forall i, (i < List.length (enqueued s'))%nat -> request_resolved s' i).
Proof.
  intros Hr E [w [Hin Hw]].
  pose proof (reachable_Inv cfg dbs s Hr) as H.
  unfold exec in E. destruct (panicked s); [discriminate|].
  destruct (flush s); try discriminate.
  unfold Flush_wait in E. destruct (wg (dw s) =? 0) eqn:E0; [|discriminate].
  injection E as <-. apply Z.eqb_eq in E0.
  assert (Hidle : forall x, In x (workers s) -> is_active x = false).
  { apply active_count_zero. pose proof (inv_wg H). lia. }
  assert (Hex : exists x, In x (workers s) /\ left_loop x = true).
  { exists w. split; [exact Hin|]. specialize (Hidle w Hin).
    destruct w; try discriminate; reflexivity. }
  destruct (inv_left H Hex) as [_ Hb].
  assert (Hn : ndeq s = List.length (enqueued s)).
  { pose proof (inv_ndeq H). rewrite (inv_buf H) in Hb.
    apply (f_equal (@List.length _)) in Hb.
    rewrite length_skipn in Hb. simpl in Hb. lia. }
  assert (Hfree : forall i, ~ request_held s i).
  { intros i [e [d [Hh _]]]. apply Hidle in Hh. discriminate. }
  split; [reflexivity|].
  split; [exact Hb|].
  split; [exact Hn|].
  split; [exact Hfree|].
  intros i Hi. simpl in Hi. rewrite <- Hn in Hi.
  destruct (inv_handled H i Hi) as [Hres | Hheld].
  - destruct Hres as [doc [evs [Hnth [Hhist Hres]]]].
    exists doc, evs. repeat split; assumption.
  - destruct (Hfree i Hheld).
Qed.

Lemma C1_requests_resolved_witness :
  reachable sample_cfg [] waiting_state /\
  exec ActFlushWait waiting_state = Some returned_state /\
  workers returned_state = [WStopped; WSpawned] /\
  List.length (enqueued returned_state) = 2%nat /\
  (forall i, (i < List.length (enqueued returned_state))%nat ->
             request_resolved returned_state i).
Proof.
  assert (Hr : reachable sample_cfg [] waiting_state).
  { apply (run_reachable sample_cfg [] one_idle_worker
                         (boot (New sample_cfg []))).
    - apply reach_boot.
    - vm_compute. reflexivity. }
  assert (E : exec ActFlushWait waiting_state = Some returned_state)
    by (vm_compute; reflexivity).
  assert (Hw : exists w, In w (workers waiting_state) /\ is_spawned w = false).
  { exists WStopped. split; [left; reflexivity | reflexivity]. }
  split; [exact Hr|].
  split; [exact E|].
  split; [reflexivity|].
  split; [reflexivity|].
  apply (C1_requests_resolved_at_Flush_return sample_cfg [] waiting_state
           returned_state Hr E Hw).
Defined.

(* ----------------------------------------------------------------- *)
(** ** [Flush] and the WaitGroup                                      *)
(* ----------------------------------------------------------------- *)

(** C2 fails on the code.  [Start(1)], [Write(sample_doc)], [Flush()]:
    when the goroutine launched by [Start] has not yet run its first
    statement ([d.wg.Add(1)]), [Flush] closes the channel, finds the
    WaitGroup counter at 0 and returns, while the request is still in the
    channel: neither resolved nor in the hands of a worker. *)
Theorem C2_Flush_returns_before_drain :
  run hasty_flush (boot (New sample_cfg [])) = Some hasty_state /\
  flush hasty_state = FlushReturned /\
  workers hasty_state = [WSpawned] /\
  wg (dw hasty_state) = 0 /\
  request_queued hasty_state 0 /\
  ~ request_resolved hasty_state 0 /\
  ~ request_held hasty_state 0.
Proof.
  split; [vm_compute; reflexivity|].
  split; [reflexivity|].
  split; [reflexivity|].
  split; [reflexivity|].
  split; [unfold request_queued; simpl; lia|].
  split.
  - intros [doc [evs [_ [[] _]]]].
  - intros [err [doc [[E | []] _]]]. discriminate.
Qed.

(** What the WaitGroup does give: if every launched worker has run its
    [wg.Add(1)] by the time [Flush] finds the counter at 0 (and there is a
    worker), all workers have stopped and every request is resolved when
    [Flush] returns. *)
Lemma Flush_waits_for_registered_workers
      (cfg : Resources) (dbs : list string) (s : System) :
  reachable cfg dbs s ->
  workers s <> [] ->
  forallb (fun w => negb (is_spawned w)) (workers s) = true ->
  wg (dw s) = 0 ->
  all_stopped s = true /\
  forall i, (i < List.length (enqueued s))%nat -> request_resolved s i.
Proof.
  intros Hr Hne Hsp Hwg.
  pose proof (reachable_Inv cfg dbs s Hr) as H.
  assert (Hall : all_stopped s = true).
  { pose proof (inv_wg H) as Hc. rewrite Hwg in Hc.
    unfold all_stopped. revert Hsp Hc. clear.
    induction (workers s) as [|w ws IH]; [reflexivity|].
    simpl. intros Hsp Hc. apply andb_true_iff in Hsp. destruct Hsp as [Hw Hsp].
    unfold active_count in *. simpl in Hc.
    destruct w; simpl in *; try discriminate; try lia.
    apply IH; assumption. }
  split; [exact Hall|].
  apply (stopped_all_resolved cfg dbs s H Hne Hall).
Qed.

(* ----------------------------------------------------------------- *)
(** ** The carried error under a fixed configuration                  *)
(* ----------------------------------------------------------------- *)

Lemma writeLoop_body_filtered_nil (d : DocWriter) (doc : Document)
      (ins : InsertResults) :
  isWhitelisted (Whitelist d) filter_subject = true ->
  ImportWl d = false ->
  writeLoop_body d None doc ins = (None, []).
Proof.
  intros Hwl Himp. unfold writeLoop_body, writeLoop_insert.
  rewrite Hwl, Himp. reflexivity.
Qed.

(** The situation of C10 needs a change of configuration between two
    iterations: as long as the whitelist and the import flag are the ones
    [New] was given, a writer whose filter matches with the override off
    never makes an insert, so the variable [err] of every worker stays
    [nil] and the retry engine is never entered. *)
Lemma carried_error_nil_when_filtering
      (cfg : Resources) (dbs : list string) (s : System) :
  isWhitelisted (CfgWhitelist cfg) filter_subject = true ->
  ImportWhitelist cfg = false ->
  reachable cfg dbs s ->
  forall w, In w (workers s) -> worker_err w = None.
Proof.
  intros Hwl Himp Hr.
  induction Hr as [|s a s' Hr IH E]; [intros w []|].
  pose proof (reachable_Inv cfg dbs s Hr) as H.
  destruct a as [count | count | k | doc | n | | | i ins].
  - unfold exec in E. destruct (panicked s); [discriminate|].
    injection E as <-. unfold Start.
    destruct (negb (started (dw s))); [|exact IH].
    rewrite Start_loop_workers. intros w Hw.
    apply in_app_or in Hw. destruct Hw as [Hw | Hw]; [apply IH; exact Hw|].
    apply repeat_spec in Hw. subst. reflexivity.
  - unfold exec in E. destruct (panicked s); [discriminate|].
    injection E as <-. unfold Start_enter.
    destruct (negb (started (dw s))); exact IH.
  - unfold exec in E. destruct (panicked s); [discriminate|].
    destruct (nth_error (starting s) k) as [st|]; [|discriminate].
    unfold Start_next in E. destruct (passes_left st); [discriminate|].
    destruct (flag_assigned st); injection E as <-; simpl; [|exact IH].
    intros w Hw. apply in_app_or in Hw.
    destruct Hw as [Hw | [<- | []]]; [apply IH; exact Hw | reflexivity].
  - unfold exec in E. destruct (panicked s); [discriminate|].
    destruct (Write_register doc (dw s)). injection E as <-. exact IH.
  - unfold exec in E. destruct (panicked s); [discriminate|].
    destruct (nth_error (sending s) n) as [doc|]; [|discriminate].
    unfold Write_send in E.
    destruct (Chan.send (wchan (dw s)) doc); try discriminate;
      injection E as <-; exact IH.
  - unfold exec in E. destruct (panicked s); [discriminate|].
    unfold Flush_close in E.
    destruct (flush s); try discriminate;
      destruct (Chan.close (wchan (dw s))); injection E as <-; exact IH.
  - unfold exec in E. destruct (panicked s); [discriminate|].
    unfold Flush_wait in E.
    destruct (flush s); try discriminate.
    destruct (wg (dw s) =? 0); [|discriminate].
    injection E as <-. exact IH.
  - apply exec_worker_inv in E.
    destruct E as [_ [w0 [w' [s1 [l1 [l2 [Hws [_ [Hstep ->]]]]]]]]].
    simpl. intros w Hw.
    destruct (In_replaced l1 l2 w0 w' w Hw) as [-> | Hin];
      [|apply IH; rewrite Hws; exact Hin].
    assert (H0 : worker_err w0 = None)
      by (apply IH; rewrite Hws; apply in_elt).
    destruct w0; simpl in Hstep, H0.
    + injection Hstep as <- _. reflexivity.
    + destruct (Chan.recv (wchan (dw s))); try discriminate;
        injection Hstep as <- _; [exact H0 | reflexivity].
    + subst err. destruct (Ssn (dw s));
        [|injection Hstep as <- _; reflexivity].
      rewrite writeLoop_body_filtered_nil in Hstep.
      * injection Hstep as <- _. reflexivity.
      * rewrite (inv_whitelist H). exact Hwl.
      * rewrite (inv_importwl H). exact Himp.
    + injection Hstep as <- _. reflexivity.
    + discriminate.
Qed.

(* ----------------------------------------------------------------- *)
(** ** The [started] flag                                             *)
(* ----------------------------------------------------------------- *)

(** C6, as the specification states it, fails for a first call with
    N = 0: it launches nothing and leaves [started] false, so the second
    call [Start(3)] launches 3 workers: 3 in total, not 0. *)
Lemma C6_counterexample :
  IsStarted (dw (Start 0 (boot (New sample_cfg [])))) = false /\
  nworkers (Start 3 (Start 0 (boot (New sample_cfg [])))) = 3%nat /\
  nworkers (Start 3 (Start 0 (boot (New sample_cfg [])))) <> Z.to_nat 0.
Proof. repeat split; try reflexivity. vm_compute. discriminate. Qed.

(** C6, amended.  Once a first call has launched at least one worker,
    [Start] is idempotent: for every N >= 1 and every M, [Start(N)] then
    [Start(M)] on a writer not yet started launches exactly N workers, the
    second call changes nothing (and is not an error), and the flag is
    set.  The flag never goes back: on a started writer every [Start] is a
    no-op, and no action of the system resets the flag.  A call with
    N <= 0 launches nothing and leaves the flag as it was. *)
Theorem C6_Start_idempotent_once_started (N M : Z) (s : System) :
  1 <= N ->
  started (dw s) = false ->
  Start M (Start N s) = Start N s /\
  nworkers (Start M (Start N s)) = (nworkers s + Z.to_nat N)%nat /\
  workers (Start N s) = (workers s ++ repeat WSpawned (Z.to_nat N))%list /\
  IsStarted (dw (Start N s)) = true /\
  (forall count s0, started (dw s0) = true -> Start count s0 = s0) /\
  (forall a s0 s1, exec a s0 = Some s1 ->
                   started (dw s0) = true -> started (dw s1) = true) /\
  (forall count s0, count <= 0 -> Start count s0 = s0).
Proof.
  intros HN Hs.
  assert (Hst : started (dw (Start N s)) = true).
  { unfold Start. rewrite Hs. simpl. rewrite Start_loop_started.
    destruct (Z.to_nat N) eqn:E; [lia | reflexivity]. }
  assert (Hws : workers (Start N s)
                = (workers s ++ repeat WSpawned (Z.to_nat N))%list).
  { unfold Start. rewrite Hs. simpl. apply Start_loop_workers. }
  rewrite (Start_when_started M _ Hst).
  repeat split.
  - unfold nworkers. rewrite Hws, length_app, repeat_length. reflexivity.
  - exact Hws.
  - exact Hst.
  - intros; apply Start_when_started; assumption.
  - intros a s0 s1. apply started_monotone.
  - intros; apply Start_nonpositive; assumption.
Qed.

Lemma C6_Start_idempotent_witness :
  1 <= 2 /\
  started (dw (boot (New sample_cfg []))) = false /\
  nworkers (Start 5 (Start 2 (boot (New sample_cfg [])))) = 2%nat.
Proof.
  split; [lia | split; [reflexivity |]].
  apply (C6_Start_idempotent_once_started 2 5 (boot (New sample_cfg [])));
    [lia | reflexivity].
Defined.

(* ================================================================= *)
(** * Further properties of the code                                  *)
(* ================================================================= *)

(* ----------------------------------------------------------------- *)
(** ** The content filter as a set of patterns                        *)
(* ----------------------------------------------------------------- *)

Lemma isWhitelisted_loop_app (l1 l2 : list string) (url : string) :
  isWhitelisted_loop (l1 ++ l2) url =
  isWhitelisted_loop l1 url || isWhitelisted_loop l2 url.
Proof.
  induction l1 as [|p l1 IH]; simpl; [reflexivity|].
  destruct (GoStrings.Contains url p); [reflexivity | exact IH].
Qed.

(** X1. The answer of [isWhitelisted] depends on the set of patterns
    only: two lists that are permutations of each other give the same
    answer on every subject, and the answer on a concatenation is the
    disjunction of the answers on its parts. *)
Theorem isWhitelisted_order_irrelevant (wl wl' : list string) (url : string) :
  Permutation wl wl' ->
  isWhitelisted (Some wl) url = isWhitelisted (Some wl') url /\
  (forall l1 l2 : list string,
      isWhitelisted (Some (l1 ++ l2)%list) url =
      isWhitelisted (Some l1) url || isWhitelisted (Some l2) url).
Proof.
  intros HP. split; [|intros; apply isWhitelisted_loop_app].
  simpl. induction HP as [| x l l' _ IH | x y l | l l' l'' _ IH1 _ IH2]; simpl.
  - reflexivity.
  - rewrite IH. reflexivity.
  - destruct (GoStrings.Contains url y), (GoStrings.Contains url x);
      reflexivity.
  - congruence.
Qed.

Lemma isWhitelisted_order_witness :
  Permutation ["foo"; "some"] ["some"; "foo"] /\
  isWhitelisted (Some ["foo"; "some"]) filter_subject =
  isWhitelisted (Some ["some"; "foo"]) filter_subject.
Proof.
  assert (H : Permutation ["foo"; "some"] ["some"; "foo"])
    by apply perm_swap.
  split; [exact H|].
  apply (isWhitelisted_order_irrelevant
           ["foo"; "some"] ["some"; "foo"] filter_subject H).
Defined.

(** X2. An empty string among the patterns makes the filter match every
    subject: [strings.Contains(url, "")] is true for all [url]. *)
Theorem isWhitelisted_empty_pattern (wl : list string) (url : string) :
  In "" wl -> isWhitelisted (Some wl) url = true.
Proof.
  intros Hin. apply isWhitelisted_loop_iff. exists "". split; [exact Hin|].
  exists "", url. reflexivity.
Qed.

Lemma isWhitelisted_empty_pattern_witness :
  In "" ["evil.example"; ""] /\
  isWhitelisted (Some ["evil.example"; ""]) "10.0.0.1" = true.
Proof.
  assert (H : In "" ["evil.example"; ""]) by (simpl; auto).
  split; [exact H|].
  apply (isWhitelisted_empty_pattern ["evil.example"; ""] "10.0.0.1" H).
Defined.

(* ----------------------------------------------------------------- *)
(** ** What one iteration does and never does                         *)
(* ----------------------------------------------------------------- *)

(** Splits on every test the goal still branches on. *)
Ltac split_branches :=
  repeat match goal with
         | |- context [match ?x with _ => _ end] =>
             let E := fresh "E" in destruct x eqn:E; simpl
         end.

Lemma expFalloff_loop_about (idxs : list Z) (doc : Document)
      (ins : InsertResults) (k : nat) :
  Forall (event_about doc) (expFalloff_loop idxs doc ins k).
Proof.
  revert k; induction idxs as [|i rest IH]; intros k; simpl;
    [constructor|].
  constructor; [exact I|]. constructor; [reflexivity|].
  destruct (ins k); constructor; try exact I; [apply IH | constructor].
Qed.

Lemma writeLoop_body_about (d : DocWriter) (err : error) (doc : Document)
      (ins : InsertResults) :
  Forall (event_about doc) (snd (writeLoop_body d err doc ins)).
Proof.
  assert (Hon : forall e k, Forall (event_about doc)
                                   (writeLoop_onerror e doc ins k)).
  { intros [msg|] k; simpl; [|constructor].
    apply Forall_app. split.
    - destruct (GoStrings.Contains msg "ObjectIDs"); repeat constructor.
    - constructor; [exact I | apply expFalloff_loop_about]. }
  unfold writeLoop_body, writeLoop_insert.
  destruct (isWhitelisted (Whitelist d) filter_subject);
    [destruct (ImportWl d)|]; cbn [fst snd];
    apply Forall_app; split; try apply Hon; repeat constructor.
Qed.

(** X3. Whatever the configuration, the carried error and the answers of
    the database, every insert an iteration makes is an insert of the
    document it received (same payload, database and collection), and a
    dump is a dump of that document's payload: the loop never writes
    anything else.  The same holds for the retry engine on its own. *)
Theorem iteration_touches_only_its_document
        (d : DocWriter) (err : error) (doc : Document) (ins : InsertResults) :
  Forall (event_about doc) (snd (writeLoop_body d err doc ins)) /\
  (forall k, Forall (event_about doc) (expFalloff doc ins k)).
Proof.
  split; [apply writeLoop_body_about|].
  intros k. apply expFalloff_loop_about.
Qed.

(** X4. Bounds on one iteration, whatever the configuration, the carried
    error and the answers of the database: at most 6 inserts, at most one
    of them successful, at most 5 retry passes, between 0 and 30 time
    units of sleep, and every failed insert is followed by its error
    entry (the error entries are the failed inserts, plus one when a
    carried error is logged again). *)
Theorem iteration_bounds
        (d : DocWriter) (err : error) (doc : Document) (ins : InsertResults) :
  let evs := snd (writeLoop_body d err doc ins) in
  (attempts evs <= 6)%nat /\
  (successes evs <= 1)%nat /\
  attempts evs = (successes evs + failures evs)%nat /\
  (retries evs <= 5)%nat /\
  0 <= total_sleep evs <= 30 /\
  (failures evs <= error_logs evs <= failures evs + 1)%nat.
Proof.
  unfold writeLoop_body, writeLoop_insert, writeLoop_onerror, expFalloff,
    falloff_indices, attempts, successes, failures, retries, error_logs,
    total_sleep, count.
  destruct (isWhitelisted (Whitelist d) filter_subject);
    [destruct (ImportWl d)|];
    simpl; split_branches; simpl; repeat split; lia.
Qed.

Lemma expFalloff_loop_no_dump (idxs : list Z) (doc : Document)
      (ins : InsertResults) (k : nat) :
  dumps (expFalloff_loop idxs doc ins k) = 0%nat.
Proof.
  revert k; induction idxs as [|i rest IH]; intros k; [reflexivity|].
  simpl. destruct (ins k); [|reflexivity].
  unfold dumps, count in *. simpl. apply IH.
Qed.

(** X5. The payload is dumped at most once per iteration, and exactly
    when the error the loop tests after the first insert mentions
    "ObjectIDs"; the retry engine never dumps, whatever errors it gets. *)
Theorem dump_only_for_the_tested_error
        (d : DocWriter) (err : error) (doc : Document) (ins : InsertResults) :
  dumps (snd (writeLoop_body d err doc ins)) =
  match fst (writeLoop_body d err doc ins) with
  | Some msg => if GoStrings.Contains msg "ObjectIDs" then 1%nat else 0%nat
  | None => 0%nat
  end /\
  (forall k, dumps (expFalloff doc ins k) = 0%nat).
Proof.
  split; [|intros k; apply expFalloff_loop_no_dump].
  assert (Hon : forall e k,
             dumps (writeLoop_onerror e doc ins k) =
             match e with
             | Some msg =>
                 if GoStrings.Contains msg "ObjectIDs" then 1%nat else 0%nat
             | None => 0%nat
             end).
  { intros [msg|] k; [|reflexivity]. unfold writeLoop_onerror, dumps.
    rewrite count_app. fold (dumps (EvLogError msg None :: expFalloff doc ins k)).
    change (dumps (EvLogError msg None :: expFalloff doc ins k))
      with (dumps (expFalloff doc ins k)).
    unfold expFalloff. rewrite expFalloff_loop_no_dump.
    destruct (GoStrings.Contains msg "ObjectIDs"); reflexivity. }
  unfold writeLoop_body, writeLoop_insert.
  destruct (isWhitelisted (Whitelist d) filter_subject);
    [destruct (ImportWl d)|]; cbn [fst snd];
    unfold dumps; rewrite count_app; fold (dumps (writeLoop_onerror
      (ins 0%nat) doc ins 1)); fold (dumps (writeLoop_onerror err doc ins 0));
    rewrite Hon; reflexivity.
Qed.

(* ----------------------------------------------------------------- *)
(** ** [Write]: registering twice, writing in sequence                *)
(* ----------------------------------------------------------------- *)

(** X6. The registry section is idempotent on the database name: after
    one [Write] for a database, the registry section of any further
    [Write] for the same database (whatever the payload and the
    collection) leaves the writer as it is: no second [AddNewDB], no
    second entry in [Databases]. *)
Theorem Write_register_idempotent (doc1 doc2 : Document) (d : DocWriter) :
  DB doc1 = DB doc2 ->
  snd (Write_register doc2 (snd (Write_register doc1 d)))
  = snd (Write_register doc1 d) /\
  DB (fst (Write_register doc2 (snd (Write_register doc1 d))))
  = DB (fst (Write_register doc1 d)).
Proof.
  intros Hdb.
  pose proof (Write_register_registered doc1 d) as Hreg.
  destruct (Write_register_spec doc1 d) as [new [E _]].
  rewrite E in *. simpl in Hreg.
  unfold Write_register. simpl. rewrite <- Hdb.
  assert (Hseen : seen_loop (Databases d ++ new) (pre d ++ DB doc1) false
                  = true)
    by (apply seen_loop_true_iff; right; exact Hreg).
  rewrite Hseen. simpl. split; reflexivity.
Qed.

Lemma Write_register_idempotent_witness :
  DB sample_doc = DB (mkDocument "{conn: 2}" "day1" "http") /\
  snd (Write_register (mkDocument "{conn: 2}" "day1" "http")
                      (snd (Write_register sample_doc (New sample_cfg []))))
  = snd (Write_register sample_doc (New sample_cfg [])).
Proof.
  assert (H : DB sample_doc = DB (mkDocument "{conn: 2}" "day1" "http"))
    by reflexivity.
  split; [exact H|].
  apply (Write_register_idempotent
           sample_doc (mkDocument "{conn: 2}" "day1" "http")
           (New sample_cfg []) H).
Defined.

(** The state a returning [Write] leaves, on an open channel with room. *)
Lemma Write_effect (doc : Document) (s : System) :
  Chan.closed (wchan (dw s)) = false ->
  (Chan.len (wchan (dw s)) < Chan.cap (wchan (dw s)))%nat ->
  exists new,
    Write doc s =
    Returns
      (mkSystem
         (mkDocWriter (Ssn (dw s)) (pre (dw s)) (ImportWl (dw s))
            (Whitelist (dw s))
            (Chan.mk (Chan.buf (wchan (dw s)) ++ [prefixed (dw s) doc])
                     (Chan.cap (wchan (dw s))) false)
            (wg (dw s)) (Meta (dw s) ++ new) (Databases (dw s) ++ new)
            (started (dw s)))
         (workers s) (sending s) (flush s) (panicked s)
         (enqueued s ++ [prefixed (dw s) doc]) (ndeq s) (history s)
         (starting s)) /\
    In (pre (dw s) ++ DB doc) (Databases (dw s) ++ new).
Proof.
  intros Hc Hlen. unfold Write.
  pose proof (Write_register_registered doc (dw s)) as Hreg.
  destruct (Write_register_spec doc (dw s)) as [new [E _]].
  rewrite E in *. simpl in Hreg.
  exists new. split; [|exact Hreg].
  unfold Write_send, Chan.send. simpl. rewrite Hc.
  apply Nat.ltb_lt in Hlen. rewrite Hlen. reflexivity.
Qed.

(** X7. Calls of [Write] made in sequence by one goroutine, on an open
    channel with room for all of them, all return, and the documents are
    on the channel in call order, behind what was there, each under its
    prefixed database name and with payload and collection untouched;
    every one of those names is registered; no worker, no counter and no
    history is touched. *)
Theorem Write_all_in_order (docs : list Document) (s : System) :
  Chan.closed (wchan (dw s)) = false ->
  (Chan.len (wchan (dw s)) + List.length docs
   <= Chan.cap (wchan (dw s)))%nat ->
  exists s',
    Write_all docs s = Returns s' /\
    enqueued s' = (enqueued s ++ map (prefixed (dw s)) docs)%list /\
    Chan.buf (wchan (dw s')) =
      (Chan.buf (wchan (dw s)) ++ map (prefixed (dw s)) docs)%list /\
    (forall doc, In doc docs ->
                 In (pre (dw s) ++ DB doc) (Databases (dw s'))) /\
    (forall name, In name (Databases (dw s)) ->
                  In name (Databases (dw s'))) /\
    workers s' = workers s /\ wg (dw s') = wg (dw s) /\
    ndeq s' = ndeq s /\ history s' = history s.
Proof.
  revert s; induction docs as [|doc rest IH]; intros s Hc Hlen.
  - exists s. simpl. rewrite !app_nil_r.
    repeat split; try reflexivity; [intros doc [] | auto].
  - simpl in Hlen.
    destruct (Write_effect doc s Hc) as [new [HW Hin]]; [lia|].
    simpl. rewrite HW.
    match type of HW with _ = Returns ?st => set (s1 := st) in * end.
    destruct (IH s1) as [s' [Hall [Henq [Hbuf [Hreg [Hmono [Hw [Hg [Hn Hh]]]]]]]]].
    + reflexivity.
    + unfold s1, Chan.len in *. simpl. rewrite length_app. simpl. lia.
    + exists s'. split; [exact Hall|].
      unfold s1 in Henq, Hbuf, Hreg, Hmono, Hw, Hg, Hn, Hh.
      simpl in Henq, Hbuf, Hreg, Hmono, Hw, Hg, Hn, Hh.
      unfold prefixed in *. simpl in *.
      rewrite <- !app_assoc in Henq, Hbuf. simpl in Henq, Hbuf.
      repeat split; try assumption.
      * intros d [<- | Hd]; [apply Hmono; exact Hin | apply Hreg; exact Hd].
      * intros name Hname. apply Hmono. apply in_or_app. left. exact Hname.
Qed.

Lemma Write_all_in_order_witness :
  Chan.closed (wchan (dw (boot (New sample_cfg [])))) = false /\
  (Chan.len (wchan (dw (boot (New sample_cfg []))))
   + List.length [sample_doc; other_doc]
   <= Chan.cap (wchan (dw (boot (New sample_cfg [])))))%nat /\
  exists s',
    Write_all [sample_doc; other_doc] (boot (New sample_cfg [])) = Returns s' /\
    enqueued s' =
      [mkDocument "{conn: 1}" "rita-day1" "conn";
       mkDocument "{dns: 2}" "rita-day2" "dns"].
Proof.
  assert (H1 : Chan.closed (wchan (dw (boot (New sample_cfg [])))) = false)
    by reflexivity.
  assert (H2 : (Chan.len (wchan (dw (boot (New sample_cfg []))))
                + List.length [sample_doc; other_doc]
                <= Chan.cap (wchan (dw (boot (New sample_cfg [])))))%nat)
    by (vm_compute; lia).
  split; [exact H1 | split; [exact H2 |]].
  destruct (Write_all_in_order [sample_doc; other_doc]
              (boot (New sample_cfg [])) H1 H2)
    as [s' [Hall [Henq _]]].
  exists s'. split; [exact Hall | exact Henq].
Defined.

(* ----------------------------------------------------------------- *)
(** ** More invariants of the running system                          *)
(* ----------------------------------------------------------------- *)

Lemma held_indices_app (l1 l2 : list Worker) :
  held_indices (l1 ++ l2) = (held_indices l1 ++ held_indices l2)%list.
Proof.
  induction l1 as [|w l1 IH]; [reflexivity|].
  destruct w; simpl; rewrite IH; reflexivity.
Qed.

Lemma held_indices_repeat_spawned (n : nat) :
  held_indices (repeat WSpawned n) = [].
Proof. induction n; [reflexivity | exact IHn]. Qed.

Lemma nth_error_app_keep {A : Type} (l l' : list A) (i : nat) (x : A) :
  nth_error l i = Some x -> nth_error (l ++ l') i = Some x.
Proof.
  intros H. rewrite nth_error_app1; [exact H|].
  apply nth_error_Some. congruence.
Qed.

Section MoreInvariants.

Variable cfg : Resources.
Variable dbs : list string.

Lemma Inv2_boot : Inv2 cfg dbs (boot (New cfg dbs)).
Proof.
  constructor; simpl.
  - unfold Chan.len. simpl. lia.
  - discriminate.
  - intros doc [[] | []].
  - intros err i doc [].
  - intros i evs [].
  - apply Permutation_refl.
Qed.

(** An action that leaves the workers, the queue history and the history
    alone keeps what is said about them. *)
Lemma Inv2_frame (s s' : System) :
  Inv2 cfg dbs s ->
  workers s' = workers s ->
  enqueued s' = enqueued s ->
  history s' = history s ->
  ndeq s' = ndeq s ->
  (Chan.len (wchan (dw s')) <= Chan.cap (wchan (dw s')))%nat ->
  (Chan.closed (wchan (dw s')) = true -> flush s' <> FlushNotCalled) ->
  (forall doc, In doc (sending s') ->
               exists name, DB doc = DBPrefix cfg ++ name) ->
  Inv2 cfg dbs s'.
Proof.
  intros H Hw He Hh Hn Hlen Hcl Hsend.
  constructor.
  - exact Hlen.
  - exact Hcl.
  - intros doc [Hd | Hd]; [apply Hsend; exact Hd|].
    apply (inv2_prefix H). right. rewrite <- He. exact Hd.
  - rewrite Hw, He. exact (inv2_held H).
  - rewrite Hh, He. exact (inv2_history H).
  - unfold handled_indices. rewrite Hh, Hw, Hn. exact (inv2_once H).
Qed.

Lemma Inv2_exec (a : Action) (s s' : System) :
  Inv cfg dbs s -> Inv2 cfg dbs s -> exec a s = Some s' -> Inv2 cfg dbs s'.
Proof.
  intros H H2 E.
  destruct a as [count | count | k | doc | n | | | i ins].
  - (* Start *)
    unfold exec in E. destruct (panicked s); [discriminate|].
    injection E as <-. unfold Start.
    destruct (negb (started (dw s))) eqn:Hst; [|exact H2].
    rewrite Start_loop_eq.
    constructor; simpl.
    + exact (inv2_len H2).
    + exact (inv2_closed H2).
    + exact (inv2_prefix H2).
    + intros err i doc Hin. apply (inv2_held H2 err).
      apply in_app_or in Hin. destruct Hin as [Hin | Hin]; [exact Hin|].
      apply repeat_spec in Hin. discriminate.
    + exact (inv2_history H2).
    + unfold handled_indices. simpl.
      rewrite held_indices_app, held_indices_repeat_spawned, app_nil_r.
      exact (inv2_once H2).
  - (* the test of Start *)
    unfold exec in E. destruct (panicked s); [discriminate|].
    injection E as <-. unfold Start_enter.
    destruct (negb (started (dw s))); [|exact H2].
    apply (Inv2_frame s); simpl; try reflexivity.
    + exact H2.
    + exact (inv2_len H2).
    + exact (inv2_closed H2).
    + intros d Hd. apply (inv2_prefix H2). left. exact Hd.
  - (* a statement of the loop of Start *)
    unfold exec in E. destruct (panicked s); [discriminate|].
    destruct (nth_error (starting s) k) as [st|]; [|discriminate].
    unfold Start_next in E. destruct (passes_left st); [discriminate|].
    destruct (flag_assigned st); injection E as <-.
    + constructor; simpl.
      * exact (inv2_len H2).
      * exact (inv2_closed H2).
      * exact (inv2_prefix H2).
      * intros err i doc Hin. apply (inv2_held H2 err).
        apply in_app_or in Hin.
        destruct Hin as [Hin | [Hin | []]]; [exact Hin | discriminate].
      * exact (inv2_history H2).
      * unfold handled_indices. simpl.
        rewrite held_indices_app. simpl. rewrite app_nil_r.
        exact (inv2_once H2).
    + apply (Inv2_frame s); simpl; try reflexivity.
      * exact H2.
      * exact (inv2_len H2).
      * exact (inv2_closed H2).
      * intros d Hd. apply (inv2_prefix H2). left. exact Hd.
  - (* the registry section of Write *)
    unfold exec in E. destruct (panicked s); [discriminate|].
    destruct (Write_register_spec doc (dw s)) as [new [Hreg _]].
    rewrite Hreg in E. injection E as <-.
    apply (Inv2_frame s); simpl; try reflexivity.
    + exact H2.
    + exact (inv2_len H2).
    + exact (inv2_closed H2).
    + intros d Hd. apply in_app_or in Hd. destruct Hd as [Hd | [<- | []]].
      * apply (inv2_prefix H2). left. exact Hd.
      * simpl. exists (DB doc). rewrite (inv_pre H). reflexivity.
  - (* the send of Write *)
    unfold exec in E. destruct (panicked s); [discriminate|].
    destruct (nth_error (sending s) n) as [doc|] eqn:Hn; [|discriminate].
    unfold Write_send, Chan.send in E.
    destruct (Chan.closed (wchan (dw s))) eqn:Hc.
    + injection E as <-.
      apply (Inv2_frame s); simpl; try reflexivity.
      * exact H2.
      * exact (inv2_len H2).
      * exact (inv2_closed H2).
      * intros d Hd. apply (inv2_prefix H2). left. exact Hd.
    + destruct (Chan.len (wchan (dw s)) <? Chan.cap (wchan (dw s)))%nat
        eqn:Hlt; [|discriminate].
      injection E as <-. apply Nat.ltb_lt in Hlt.
      constructor; simpl.
      * unfold Chan.len in *. simpl. rewrite length_app. simpl. lia.
      * discriminate.
      * intros d [Hd | Hd].
        -- apply (inv2_prefix H2). left. eapply remove_nth_incl. exact Hd.
        -- apply in_app_or in Hd. destruct Hd as [Hd | [<- | []]].
           ++ apply (inv2_prefix H2). right. exact Hd.
           ++ apply (inv2_prefix H2). left. eapply nth_error_In. exact Hn.
      * intros err j d Hin. apply nth_error_app_keep.
        exact (inv2_held H2 err j d Hin).
      * intros j evs Hin.
        destruct (inv2_history H2 j evs Hin) as [d [Hnth Hit]].
        exists d. split; [apply nth_error_app_keep; exact Hnth | exact Hit].
      * exact (inv2_once H2).
  - (* close *)
    unfold exec in E. destruct (panicked s); [discriminate|].
    unfold Flush_close, Chan.close in E.
    assert (Hsend : forall d, In d (sending s) ->
                              exists name, DB d = DBPrefix cfg ++ name)
      by (intros d Hd; apply (inv2_prefix H2); left; exact Hd).
    destruct (flush s) eqn:Hf; try discriminate;
      destruct (Chan.closed (wchan (dw s))) eqn:Hc; injection E as <-;
      apply (Inv2_frame s); simpl; try reflexivity;
      try exact H2; try exact (inv2_len H2); try exact Hsend;
      try (intros _; rewrite Hf; discriminate); try discriminate.
    intros _. apply (inv2_closed H2). exact Hc.
  - (* the end of the wait *)
    unfold exec in E. destruct (panicked s); [discriminate|].
    destruct (flush s); try discriminate.
    unfold Flush_wait in E. destruct (wg (dw s) =? 0); [|discriminate].
    injection E as <-.
    apply (Inv2_frame s); simpl; try reflexivity.
    + exact H2.
    + exact (inv2_len H2).
    + discriminate.
    + intros d Hd. apply (inv2_prefix H2). left. exact Hd.
  - (* a worker *)
    apply exec_worker_inv in E.
    destruct E as [_ [w [w' [s1 [l1 [l2 [Hws [_ [Hstep ->]]]]]]]]].
    assert (Hold : forall x err j d,
               (forall e k y, x <> WHolding e k y) ->
               In (WHolding err j d) (l1 ++ x :: l2) ->
               nth_error (enqueued s) j = Some d).
    { intros x err j d Hx Hin. apply (inv2_held H2 err). rewrite Hws.
      destruct (In_replaced l1 l2 w x _ Hin) as [Eq | Hin']; [|exact Hin'].
      exfalso. eapply Hx. symmetry. exact Eq. }
    pose proof (inv2_once H2) as Honce. unfold handled_indices in Honce.
    rewrite Hws, held_indices_app in Honce.
    destruct w; simpl in Hstep.
    + (* wg.Add(1) *)
      injection Hstep as <- <-.
      constructor; simpl.
      * exact (inv2_len H2).
      * exact (inv2_closed H2).
      * exact (inv2_prefix H2).
      * intros err j d. apply Hold. intros; discriminate.
      * exact (inv2_history H2).
      * unfold handled_indices. simpl. rewrite held_indices_app. exact Honce.
    + (* receive *)
      unfold Chan.recv in Hstep.
      destruct (Chan.buf (wchan (dw s))) as [|doc rest] eqn:Hbuf.
      * destruct (Chan.closed (wchan (dw s))); [|discriminate].
        injection Hstep as <- <-.
        constructor; simpl.
        -- exact (inv2_len H2).
        -- exact (inv2_closed H2).
        -- exact (inv2_prefix H2).
        -- intros e j d. apply Hold. intros; discriminate.
        -- exact (inv2_history H2).
        -- unfold handled_indices. simpl. rewrite held_indices_app.
           exact Honce.
      * injection Hstep as <- <-.
        pose proof (inv_buf H) as Hb. rewrite Hbuf in Hb. symmetry in Hb.
        destruct (skipn_cons_inv _ _ _ _ Hb) as [_ [Hnth _]].
        constructor; simpl.
        -- pose proof (inv2_len H2) as Hl. unfold Chan.len in *.
           rewrite Hbuf in Hl. simpl in *. lia.
        -- exact (inv2_closed H2).
        -- exact (inv2_prefix H2).
        -- intros e j d Hin.
           destruct (In_replaced l1 l2 (WReading err)
                       (WHolding err (ndeq s) doc) _ Hin) as [Eq | Hin'].
           ++ injection Eq as -> -> ->. exact Hnth.
           ++ apply (inv2_held H2 e). rewrite Hws. exact Hin'.
        -- exact (inv2_history H2).
        -- change (Permutation
                     (map fst (history s) ++
                      held_indices (l1 ++ WHolding err (ndeq s) doc :: l2))
                     (seq 0 (S (ndeq s)))).
           rewrite held_indices_app, seq_S. simpl.
           apply Permutation_trans
             with (l' := (ndeq s :: map fst (history s) ++ held_indices l1
                                 ++ held_indices l2)%list).
           ++ rewrite app_assoc.
              apply Permutation_sym.
              rewrite app_assoc. apply Permutation_middle.
           ++ apply Permutation_trans
                with (l' := (ndeq s :: seq 0 (ndeq s))%list).
              ** constructor. exact Honce.
              ** apply Permutation_cons_append.
    + (* the rest of the iteration *)
      destruct (Ssn (dw s)) eqn:Hssn.
      2:{ injection Hstep as <- <-.
          apply (Inv2_frame s); simpl; try reflexivity.
          - exact H2.
          - symmetry. exact Hws.
          - exact (inv2_len H2).
          - exact (inv2_closed H2).
          - intros d Hd. apply (inv2_prefix H2). left. exact Hd. }
      destruct (writeLoop_body (dw s) err doc ins) as [err' evs] eqn:Hbody.
      injection Hstep as <- <-.
      assert (Hdoc : nth_error (enqueued s) idx = Some doc).
      { apply (inv2_held H2 err). rewrite Hws. apply in_elt. }
      constructor; simpl.
      * exact (inv2_len H2).
      * exact (inv2_closed H2).
      * exact (inv2_prefix H2).
      * intros e j d. apply Hold. intros; discriminate.
      * intros j evs' Hin. apply in_app_or in Hin.
        destruct Hin as [Hin | [Eq | []]].
        -- exact (inv2_history H2 j evs' Hin).
        -- injection Eq as <- <-. exists doc. split; [exact Hdoc|].
           exists (dw s), err, ins.
           split; [exact (inv_whitelist H)|].
           split; [exact (inv_importwl H)|].
           rewrite Hbody. reflexivity.
      * unfold handled_indices. simpl.
        rewrite map_app, held_indices_app. simpl.
        simpl in Honce. rewrite <- app_assoc. simpl.
        apply Permutation_trans with (2 := Honce).
        apply Permutation_app_head.
        apply Permutation_trans
          with (l' := (idx :: held_indices l1 ++ held_indices l2)%list).
        -- reflexivity.
        -- apply Permutation_middle.
    + (* wg.Done() *)
      injection Hstep as <- <-.
      constructor; simpl.
      * exact (inv2_len H2).
      * exact (inv2_closed H2).
      * exact (inv2_prefix H2).
      * intros err j d. apply Hold. intros; discriminate.
      * exact (inv2_history H2).
      * unfold handled_indices. simpl. rewrite held_indices_app. exact Honce.
    + discriminate.
Qed.

Lemma reachable_Inv2 (s : System) : reachable cfg dbs s -> Inv2 cfg dbs s.
Proof.
  induction 1 as [|s a s' Hr IH E]; [apply Inv2_boot|].
  eapply Inv2_exec; [apply reachable_Inv; exact Hr | exact IH | exact E].
Qed.

End MoreInvariants.

(* ----------------------------------------------------------------- *)
(** ** The channel: capacity, order, exactly one receiver             *)
(* ----------------------------------------------------------------- *)

(** X8. In every state the writer can reach the channel holds at most
    5000 documents, and the state of the channel decides how [Write]
    ends: on an open channel with fewer than 5000 documents it returns
    with one more document queued; on an open channel holding exactly
    5000 it blocks, the database name being registered already and the
    document not enqueued; on a closed channel it panics. *)
Theorem Write_outcome_by_queue_state
        (cfg : Resources) (dbs : list string) (s : System) (doc : Document) :
  reachable cfg dbs s ->
  (Chan.len (wchan (dw s)) <= 5000)%nat /\
  (Chan.closed (wchan (dw s)) = false ->
   (Chan.len (wchan (dw s)) < 5000)%nat ->
   exists s', Write doc s = Returns s' /\
              Chan.len (wchan (dw s')) = S (Chan.len (wchan (dw s)))) /\
  (Chan.closed (wchan (dw s)) = false ->
   Chan.len (wchan (dw s)) = 5000%nat ->
   Write doc s = Blocks (set_dw (snd (Write_register doc (dw s))) s) /\
   In (pre (dw s) ++ DB doc)
      (Databases (snd (Write_register doc (dw s))))) /\
  (Chan.closed (wchan (dw s)) = true ->
   panic_message (Write doc s) = Some "send on closed channel").
Proof.
  intros Hr.
  pose proof (reachable_Inv cfg dbs s Hr) as H.
  pose proof (reachable_Inv2 cfg dbs s Hr) as H2.
  pose proof (inv_cap H) as Hcap. pose proof (inv2_len H2) as Hlen.
  rewrite Hcap in Hlen.
  split; [exact Hlen|]. split; [|split].
  - intros Hc Hlt.
    destruct (Write_effect doc s Hc) as [new [HW _]]; [rewrite Hcap; exact Hlt|].
    eexists. split; [exact HW|].
    unfold Chan.len. simpl. rewrite length_app. simpl. lia.
  - intros Hc Hfull. split.
    + unfold Write.
      destruct (Write_register_spec doc (dw s)) as [new [E _]].
      rewrite E. unfold Write_send, Chan.send. simpl.
      rewrite Hc, Hcap, Hfull. reflexivity.
    + pose proof (Write_register_registered doc (dw s)) as Hreg.
      destruct (Write_register_spec doc (dw s)) as [new [E _]].
      rewrite E in *. exact Hreg.
  - intros Hc.
    destruct (Write_on_closed_channel s doc Hc) as [s2 [HW _]].
    rewrite HW. reflexivity.
Qed.

Lemma Write_outcome_witness :
  reachable sample_cfg [] quiet_state /\
  (Chan.len (wchan (dw quiet_state)) <= 5000)%nat /\
  (Chan.closed (wchan (dw quiet_state)) = true ->
   panic_message (Write other_doc quiet_state)
   = Some "send on closed channel").
Proof.
  assert (H : reachable sample_cfg [] quiet_state).
  { apply (run_reachable sample_cfg [] clean_shutdown
                         (boot (New sample_cfg []))).
    - apply reach_boot.
    - vm_compute. reflexivity. }
  split; [exact H|].
  destruct (Write_outcome_by_queue_state sample_cfg [] quiet_state
              other_doc H) as [H1 [_ [_ H4]]].
  split; [exact H1 | exact H4].
Defined.

(** X9. Every request received from the channel is in exactly one place:
    in the hands of one worker, or once in the history.  The worker that
    holds index [i] holds the [i]-th document ever enqueued (the channel
    is first in, first out), and a history entry for [i] records an
    iteration of the loop on that document. *)
Theorem each_request_handled_once
        (cfg : Resources) (dbs : list string) (s : System) :
  reachable cfg dbs s ->
  Permutation (handled_indices s) (seq 0 (ndeq s)) /\
  NoDup (handled_indices s) /\
  (ndeq s <= List.length (enqueued s))%nat /\
  Chan.buf (wchan (dw s)) = skipn (ndeq s) (enqueued s) /\
  (forall err i doc,
      In (WHolding err i doc) (workers s) ->
      nth_error (enqueued s) i = Some doc) /\
  (forall i evs,
      In (i, evs) (history s) ->
      (i < ndeq s)%nat /\
      exists doc, nth_error (enqueued s) i = Some doc /\
                  iteration_of cfg doc evs).
Proof.
  intros Hr.
  pose proof (reachable_Inv cfg dbs s Hr) as H.
  pose proof (reachable_Inv2 cfg dbs s Hr) as H2.
  split; [exact (inv2_once H2)|].
  split; [apply (Permutation_NoDup (Permutation_sym (inv2_once H2)));
          apply seq_NoDup|].
  split; [exact (inv_ndeq H)|].
  split; [exact (inv_buf H)|].
  split; [exact (inv2_held H2)|].
  intros i evs Hin. split; [|exact (inv2_history H2 i evs Hin)].
  assert (Hi : In i (seq 0 (ndeq s))).
  { apply (Permutation_in _ (inv2_once H2)). unfold handled_indices.
    apply in_or_app. left. apply (in_map fst) in Hin. exact Hin. }
  apply in_seq in Hi. lia.
Qed.

Lemma each_request_handled_once_witness :
  reachable sample_cfg [] quiet_state /\
  Permutation (handled_indices quiet_state) (seq 0 (ndeq quiet_state)).
Proof.
  assert (H : reachable sample_cfg [] quiet_state).
  { apply (run_reachable sample_cfg [] clean_shutdown
                         (boot (New sample_cfg []))).
    - apply reach_boot.
    - vm_compute. reflexivity. }
  split; [exact H|].
  apply (each_request_handled_once sample_cfg [] quiet_state H).
Defined.

(** X10. Workers write nothing but what came through [Write]: every
    insert recorded for request [i] is an insert of the [i]-th document
    enqueued, and its database name starts with the configured prefix. *)
Theorem inserts_are_of_written_documents
        (cfg : Resources) (dbs : list string) (s : System) :
  reachable cfg dbs s ->
  forall i evs d res,
    In (i, evs) (history s) ->
    In (EvInsert d res) evs ->
    nth_error (enqueued s) i = Some d /\
    exists name, DB d = DBPrefix cfg ++ name.
Proof.
  intros Hr i evs d res Hin Hev.
  pose proof (reachable_Inv2 cfg dbs s Hr) as H2.
  destruct (inv2_history H2 i evs Hin) as [doc [Hnth [d0 [err [ins [_ [_ ->]]]]]]].
  pose proof (writeLoop_body_about d0 err doc ins) as Hall.
  rewrite Forall_forall in Hall. specialize (Hall _ Hev). simpl in Hall.
  subst d. split; [exact Hnth|].
  apply (inv2_prefix H2). right. eapply nth_error_In. exact Hnth.
Qed.

Lemma inserts_are_of_written_documents_witness :
  reachable sample_cfg [] quiet_state /\
  forall i evs d res,
    In (i, evs) (history quiet_state) ->
    In (EvInsert d res) evs ->
    nth_error (enqueued quiet_state) i = Some d /\
    exists name, DB d = DBPrefix sample_cfg ++ name.
Proof.
  assert (H : reachable sample_cfg [] quiet_state).
  { apply (run_reachable sample_cfg [] clean_shutdown
                         (boot (New sample_cfg []))).
    - apply reach_boot.
    - vm_compute. reflexivity. }
  split; [exact H|].
  apply (inserts_are_of_written_documents sample_cfg [] quiet_state H).
Defined.

(* ----------------------------------------------------------------- *)
(** ** The WaitGroup, [Flush] and the end of the workers              *)
(* ----------------------------------------------------------------- *)

Lemma quiet_state_reachable : reachable sample_cfg [] quiet_state.
Proof.
  apply (run_reachable sample_cfg [] clean_shutdown (boot (New sample_cfg []))).
  - apply reach_boot.
  - vm_compute. reflexivity.
Qed.

Lemma drained_state_reachable : reachable sample_cfg [] drained_state.
Proof.
  apply (run_reachable sample_cfg [] (firstn 9 clean_shutdown)
                       (boot (New sample_cfg []))).
  - apply reach_boot.
  - vm_compute. reflexivity.
Qed.

Lemma active_count_le (ws : list Worker) :
  (active_count ws <= List.length ws)%nat.
Proof. unfold active_count. apply filter_length_le. Qed.

(** X11. The WaitGroup counter is, in every reachable state, the number
    of workers between their [wg.Add(1)] and their [wg.Done()]: it is
    never negative (no [Done] without its [Add]) and never above the
    number of goroutines launched.  So when [d.wg.Wait()] lets [Flush]
    return, no worker is inside its loop: each one has either stopped or
    not begun to run. *)
Theorem waitgroup_counts_workers_in_loop
        (cfg : Resources) (dbs : list string) (s : System) :
  reachable cfg dbs s ->
  wg (dw s) = Z.of_nat (active_count (workers s)) /\
  0 <= wg (dw s) <= Z.of_nat (nworkers s) /\
  (forall s', exec ActFlushWait s = Some s' ->
              flush s' = FlushReturned /\
              forall w, In w (workers s') -> is_active w = false).
Proof.
  intros Hr. pose proof (reachable_Inv cfg dbs s Hr) as H.
  pose proof (inv_wg H) as Hwg.
  split; [exact Hwg|]. split.
  - rewrite Hwg. pose proof (active_count_le (workers s)).
    unfold nworkers. lia.
  - intros s' E. unfold exec in E. destruct (panicked s); [discriminate|].
    destruct (flush s); try discriminate.
    unfold Flush_wait in E. destruct (wg (dw s) =? 0) eqn:E0; [|discriminate].
    injection E as <-. simpl. split; [reflexivity|].
    apply active_count_zero. apply Z.eqb_eq in E0. lia.
Qed.

Lemma waitgroup_counts_witness :
  reachable sample_cfg [] drained_state /\
  wg (dw drained_state) = Z.of_nat (active_count (workers drained_state)) /\
  0 <= wg (dw drained_state) <= Z.of_nat (nworkers drained_state).
Proof.
  split; [exact drained_state_reachable|].
  destruct (waitgroup_counts_workers_in_loop sample_cfg [] drained_state
              drained_state_reachable) as [H1 [H2 _]].
  split; [exact H1 | exact H2].
Defined.

(** X12. [Flush] can be called once.  In every reachable state where it
    has returned, a second call panics at [close(d.wchan)] with "close of
    closed channel", before it reaches the wait; nothing else changes. *)
Theorem second_Flush_panics
        (cfg : Resources) (dbs : list string) (s : System) :
  reachable cfg dbs s ->
  flush s = FlushReturned ->
  Flush s = Panics "close of closed channel"
                   (set_panicked "close of closed channel" s) /\
  (panicked s = None ->
   exec ActFlushClose s = Some (set_panicked "close of closed channel" s)).
Proof.
  intros Hr Hf. pose proof (reachable_Inv cfg dbs s Hr) as H.
  assert (Hc : Chan.closed (wchan (dw s)) = true)
    by (apply (inv_flush H); rewrite Hf; discriminate).
  split.
  - unfold Flush, Flush_close, Chan.close. rewrite Hc. reflexivity.
  - intros Hp. unfold exec, Flush_close, Chan.close.
    rewrite Hp, Hf, Hc. reflexivity.
Qed.

Lemma second_Flush_panics_witness :
  reachable sample_cfg [] quiet_state /\
  flush quiet_state = FlushReturned /\
  Flush quiet_state = Panics "close of closed channel"
                             (set_panicked "close of closed channel"
                                           quiet_state).
Proof.
  split; [exact quiet_state_reachable | split; [reflexivity |]].
  apply (second_Flush_panics sample_cfg [] quiet_state
           quiet_state_reachable eq_refl).
Defined.

(** X13. A worker leaves its loop only on a closed and empty channel:
    in every reachable state where some worker is past its loop, [Flush]
    has been called, the channel is closed and empty, and every document
    ever enqueued has been received by a worker. *)
Theorem worker_exit_means_drained
        (cfg : Resources) (dbs : list string) (s : System) :
  reachable cfg dbs s ->
  (exists w, In w (workers s) /\ left_loop w = true) ->
  flush s <> FlushNotCalled /\
  Chan.closed (wchan (dw s)) = true /\
  Chan.buf (wchan (dw s)) = [] /\
  ndeq s = List.length (enqueued s).
Proof.
  intros Hr Hex.
  pose proof (reachable_Inv cfg dbs s Hr) as H.
  pose proof (reachable_Inv2 cfg dbs s Hr) as H2.
  destruct (inv_left H Hex) as [Hc Hb].
  split; [apply (inv2_closed H2); exact Hc|].
  split; [exact Hc | split; [exact Hb|]].
  rewrite (inv_buf H) in Hb.
  apply (f_equal (@List.length _)) in Hb. rewrite length_skipn in Hb.
  simpl in Hb. pose proof (inv_ndeq H). lia.
Qed.

Lemma worker_exit_means_drained_witness :
  reachable sample_cfg [] drained_state /\
  (exists w, In w (workers drained_state) /\ left_loop w = true) /\
  ndeq drained_state = List.length (enqueued drained_state).
Proof.
  assert (Hex : exists w, In w (workers drained_state) /\ left_loop w = true).
  { exists WStopped. split; [left; reflexivity | reflexivity]. }
  split; [exact drained_state_reachable | split; [exact Hex |]].
  apply (worker_exit_means_drained sample_cfg [] drained_state
           drained_state_reachable Hex).
Defined.

(** X14. What the WaitGroup does give to [Flush]: when every launched
    worker has run its [wg.Add(1)] by the time [d.wg.Wait()] finds the
    counter at 0, and there is at least one worker, then at the return of
    [Flush] all workers have stopped and every request ever enqueued is
    resolved. *)
Theorem Flush_return_with_registered_workers
        (cfg : Resources) (dbs : list string) (s s' : System) :
  reachable cfg dbs s ->
  workers s <> [] ->
  forallb (fun w => negb (is_spawned w)) (workers s) = true ->
  exec ActFlushWait s = Some s' ->
  flush s' = FlushReturned /\
  all_stopped s' = true /\
  Chan.buf (wchan (dw s')) = [] /\
  forall i, (i < List.length (enqueued s'))%nat -> request_resolved s' i.
Proof.
  intros Hr Hne Hsp E.
  assert (Hr' : reachable cfg dbs s') by (eapply reach_step; eassumption).
  unfold exec in E. destruct (panicked s); [discriminate|].
  destruct (flush s); try discriminate.
  unfold Flush_wait in E. destruct (wg (dw s) =? 0) eqn:E0; [|discriminate].
  injection E as <-. apply Z.eqb_eq in E0.
  destruct (Flush_waits_for_registered_workers cfg dbs s Hr Hne Hsp E0)
    as [Hall Hres].
  pose proof (reachable_Inv cfg dbs s Hr) as H.
  assert (Hex : exists w, In w (workers s) /\ left_loop w = true).
  { destruct (workers s) as [|w ws] eqn:Hws; [contradiction|].
    exists w. split; [left; reflexivity|].
    unfold all_stopped in Hall. rewrite Hws in Hall. simpl in Hall.
    destruct w; try discriminate; reflexivity. }
  split; [reflexivity | split; [exact Hall | split]].
  - exact (proj2 (inv_left H Hex)).
  - intros i Hi. specialize (Hres i Hi).
    destruct Hres as [doc [evs [Hn [Hin Hres]]]].
    exists doc, evs. repeat split; assumption.
Qed.

Lemma Flush_return_with_registered_workers_witness :
  reachable sample_cfg [] drained_state /\
  workers drained_state <> [] /\
  forallb (fun w => negb (is_spawned w)) (workers drained_state) = true /\
  exec ActFlushWait drained_state = Some quiet_state /\
  all_stopped quiet_state = true.
Proof.
  assert (Hne : workers drained_state <> []) by (simpl; discriminate).
  assert (Hsp : forallb (fun w => negb (is_spawned w))
                        (workers drained_state) = true) by reflexivity.
  assert (E : exec ActFlushWait drained_state = Some quiet_state)
    by reflexivity.
  split; [exact drained_state_reachable|].
  split; [exact Hne | split; [exact Hsp | split; [exact E |]]].
  apply (Flush_return_with_registered_workers sample_cfg [] drained_state
           quiet_state drained_state_reachable Hne Hsp E).
Defined.

(* ----------------------------------------------------------------- *)
(** ** What no action undoes                                          *)
(* ----------------------------------------------------------------- *)

(** The shapes a step of the system can have. *)
Lemma exec_cases (a : Action) (s s' : System) :
  exec a s = Some s' ->
  (exists count, s' = Start count s) \/
  (exists count, s' = Start_enter count s) \/
  (exists l, s' = set_starting l (set_dw (set_started true (dw s)) s)) \/
  (exists l, s' = set_starting l (set_workers (workers s ++ [WSpawned]) s)) \/
  (exists doc,
      s' = set_sending (sending s ++ [fst (Write_register doc (dw s))])
                       (set_dw (snd (Write_register doc (dw s))) s)) \/
  (exists n doc c',
      nth_error (sending s) n = Some doc /\
      Chan.send (wchan (dw s)) doc = Chan.Sent c' /\
      s' = set_sending (remove_nth n (sending s))
             (set_enqueued (enqueued s ++ [doc])
                (set_dw (set_wchan c' (dw s)) s))) \/
  (exists msg, s' = set_panicked msg s) \/
  (exists c',
      Chan.close (wchan (dw s)) = Chan.Closed c' /\
      s' = set_flush FlushWaiting (set_dw (set_wchan c' (dw s)) s)) \/
  (wg (dw s) = 0 /\ s' = set_flush FlushReturned s) \/
  (exists ins w w' s1 l1 l2,
      workers s = (l1 ++ w :: l2)%list /\
      worker_step ins w s = Some (w', s1) /\
      s' = set_workers (l1 ++ w' :: l2) s1).
Proof.
  intros E. destruct a as [count | count | k | doc | n | | | i ins].
  - unfold exec in E. destruct (panicked s); [discriminate|].
    injection E as <-. left. exists count. reflexivity.
  - unfold exec in E. destruct (panicked s); [discriminate|].
    injection E as <-. right; left. exists count. reflexivity.
  - unfold exec in E. destruct (panicked s); [discriminate|].
    destruct (nth_error (starting s) k) as [st|]; [|discriminate].
    unfold Start_next in E. destruct (passes_left st); [discriminate|].
    destruct (flag_assigned st); injection E as <-.
    + right; right; right; left. eexists. reflexivity.
    + right; right; left. eexists. reflexivity.
  - unfold exec in E. destruct (panicked s); [discriminate|].
    do 4 right; left. exists doc.
    destruct (Write_register doc (dw s)). injection E as <-. reflexivity.
  - unfold exec in E. destruct (panicked s); [discriminate|].
    destruct (nth_error (sending s) n) as [doc|] eqn:Hn; [|discriminate].
    unfold Write_send in E.
    destruct (Chan.send (wchan (dw s)) doc) as [c'| |] eqn:Hs;
      try discriminate; injection E as <-.
    + do 5 right; left. exists n, doc, c'. repeat split; assumption.
    + do 6 right; left. eexists. reflexivity.
  - unfold exec in E. destruct (panicked s); [discriminate|].
    unfold Flush_close in E.
    destruct (flush s); try discriminate;
      (destruct (Chan.close (wchan (dw s))) as [c'|] eqn:Hc;
       injection E as <-;
       [ do 7 right; left; exists c'; split; reflexivity
       | do 6 right; left; eexists; reflexivity ]).
  - unfold exec in E. destruct (panicked s); [discriminate|].
    destruct (flush s); try discriminate.
    unfold Flush_wait in E. destruct (wg (dw s) =? 0) eqn:E0; [|discriminate].
    injection E as <-. apply Z.eqb_eq in E0.
    do 8 right; left. split; [exact E0 | reflexivity].
  - apply exec_worker_inv in E.
    destruct E as [_ [w [w' [s1 [l1 [l2 [Hws [_ [Hstep ->]]]]]]]]].
    do 9 right.
    exists ins, w, w', s1, l1, l2. repeat split; assumption.
Qed.

(** What an operation of a worker does to the writer and the books. *)
Lemma worker_step_effects (ins : InsertResults) (w w' : Worker)
      (s s1 : System) :
  worker_step ins w s = Some (w', s1) ->
  Databases (dw s1) = Databases (dw s) /\
  Meta (dw s1) = Meta (dw s) /\
  pre (dw s1) = pre (dw s) /\
  ImportWl (dw s1) = ImportWl (dw s) /\
  Whitelist (dw s1) = Whitelist (dw s) /\
  started (dw s1) = started (dw s) /\
  (history s1 = history s \/
   exists err idx doc,
     w = WHolding err idx doc /\
     w' = WReading (fst (writeLoop_body (dw s) err doc ins)) /\
     history s1 = (history s
                   ++ [(idx, snd (writeLoop_body (dw s) err doc ins))])%list).
Proof.
  destruct w; simpl.
  - intros E; injection E as _ <-. repeat split; left; reflexivity.
  - destruct (Chan.recv (wchan (dw s))); intros E; try discriminate;
      injection E as _ <-; repeat split; left; reflexivity.
  - destruct (Ssn (dw s));
      [|intros E; injection E as _ <-; repeat split; left; reflexivity].
    destruct (writeLoop_body (dw s) err doc ins) as [err' evs] eqn:Hb.
    intros E; injection E as <- <-. repeat split. right.
    exists err, idx, doc. rewrite Hb. repeat split.
  - intros E; injection E as _ <-. repeat split; left; reflexivity.
  - discriminate.
Qed.

(** One step: the registry and the in-memory list grow by the same names,
    the queue history and the history only grow, the configuration stays,
    a closed channel stays closed and takes no more documents, and
    workers are never removed. *)
Lemma exec_effects (a : Action) (s s' : System) :
  exec a s = Some s' ->
  (exists l, Databases (dw s') = (Databases (dw s) ++ l)%list /\
             Meta (dw s') = (Meta (dw s) ++ l)%list) /\
  (exists e, enqueued s' = (enqueued s ++ e)%list /\
             (Chan.closed (wchan (dw s)) = true -> e = [])) /\
  (exists h, history s' = (history s ++ h)%list) /\
  (pre (dw s') = pre (dw s) /\ ImportWl (dw s') = ImportWl (dw s) /\
   Whitelist (dw s') = Whitelist (dw s)) /\
  (Chan.closed (wchan (dw s)) = true ->
   Chan.closed (wchan (dw s')) = true) /\
  (nworkers s <= nworkers s')%nat.
Proof.
  intros E.
  assert (Hnil : forall (A : Type) (l : list A), exists x, l = (l ++ x)%list)
    by (intros A l; exists []; rewrite app_nil_r; reflexivity).
  assert (Hnil2 : forall (P : Prop) (A : Type) (l : list A),
             exists x, l = (l ++ x)%list /\ (P -> x = []))
    by (intros P A l; exists []; rewrite app_nil_r; auto).
  assert (Hnil3 : forall l1 l2 : list string,
             exists x, l1 = (l1 ++ x)%list /\ l2 = (l2 ++ x)%list)
    by (intros l1 l2; exists []; rewrite !app_nil_r; auto).
  destruct (exec_cases a s s' E)
    as [[count ->] | [[count ->] | [[l ->] | [[l ->] | [[doc ->]
       | [[n [doc [c' [Hn [Hs ->]]]]] | [[msg ->]
       | [[c' [Hc ->]] | [[Hwg ->]
       | [ins [w [w' [s1 [l1 [l2 [Hws [Hst ->]]]]]]]]]]]]]]]]].
  - unfold Start. destruct (negb (started (dw s))) eqn:Hs.
    + rewrite Start_loop_eq. simpl. unfold nworkers. simpl.
      rewrite length_app.
      repeat split; auto; lia.
    + repeat split; auto.
  - unfold Start_enter. destruct (negb (started (dw s)));
      simpl; unfold nworkers; simpl; repeat split; auto.
  - simpl. unfold nworkers. simpl. repeat split; auto.
  - simpl. unfold nworkers. simpl. rewrite length_app.
    repeat split; auto; lia.
  - destruct (Write_register_spec doc (dw s)) as [new [Hreg _]].
    rewrite Hreg. simpl. unfold nworkers. simpl.
    repeat split; auto. exists new. split; reflexivity.
  - unfold Chan.send in Hs.
    destruct (Chan.closed (wchan (dw s))) eqn:Hc; [discriminate|].
    destruct (Chan.len (wchan (dw s)) <? Chan.cap (wchan (dw s)))%nat;
      [|discriminate].
    injection Hs as <-. simpl. unfold nworkers. simpl.
    repeat split; auto; try discriminate.
    exists [doc]. split; [reflexivity | discriminate].
  - simpl. unfold nworkers. simpl. repeat split; auto.
  - unfold Chan.close in Hc.
    destruct (Chan.closed (wchan (dw s))); [discriminate|].
    injection Hc as <-. simpl. unfold nworkers. simpl. repeat split; auto.
  - simpl. unfold nworkers. simpl. repeat split; auto.
  - destruct (worker_step_effects _ _ _ _ _ Hst)
      as [Hd [Hm [Hp [Hi [Hw [Hsd Hh]]]]]].
    destruct (worker_step_frame _ _ _ _ _ Hst) as [He [_ [_ Hcl]]].
    simpl. unfold nworkers. simpl. rewrite Hws, !length_app. simpl.
    rewrite Hd, Hm, Hp, Hi, Hw, He, Hcl.
    repeat split; auto.
    destruct Hh as [-> | [err [idx [d [_ [_ ->]]]]]]; [auto|].
    eexists; reflexivity.
Qed.

Lemma run_effects (sched : list Action) (s s' : System) :
  run sched s = Some s' ->
  (exists l, Databases (dw s') = (Databases (dw s) ++ l)%list /\
             Meta (dw s') = (Meta (dw s) ++ l)%list) /\
  (exists e, enqueued s' = (enqueued s ++ e)%list /\
             (Chan.closed (wchan (dw s)) = true -> e = [])) /\
  (exists h, history s' = (history s ++ h)%list) /\
  (pre (dw s') = pre (dw s) /\ ImportWl (dw s') = ImportWl (dw s) /\
   Whitelist (dw s') = Whitelist (dw s)) /\
  (Chan.closed (wchan (dw s)) = true ->
   Chan.closed (wchan (dw s')) = true) /\
  (nworkers s <= nworkers s')%nat.
Proof.
  revert s; induction sched as [|a rest IH]; intros s; simpl.
  - intros E; injection E as <-.
    repeat split; auto; try (exists []; rewrite ?app_nil_r; auto).
  - destruct (exec a s) as [s1|] eqn:E; [|discriminate].
    intros Hrun.
    destruct (exec_effects a s s1 E)
      as [[l1 [Hd1 Hm1]] [[e1 [He1 Hc1]] [[h1 Hh1] [[Hp1 [Hi1 Hw1]]
         [Hcl1 Hn1]]]]].
    destruct (IH s1 Hrun)
      as [[l2 [Hd2 Hm2]] [[e2 [He2 Hc2]] [[h2 Hh2] [[Hp2 [Hi2 Hw2]]
         [Hcl2 Hn2]]]]].
    split; [|split; [|split; [|split; [|split]]]].
    + exists (l1 ++ l2)%list. rewrite Hd2, Hd1, Hm2, Hm1, !app_assoc.
      split; reflexivity.
    + exists (e1 ++ e2)%list. rewrite He2, He1, app_assoc.
      split; [reflexivity|].
      intros Hc. rewrite (Hc1 Hc), (Hc2 (Hcl1 Hc)). reflexivity.
    + exists (h1 ++ h2)%list. rewrite Hh2, Hh1, app_assoc. reflexivity.
    + repeat split; congruence.
    + auto.
    + lia.
Qed.

(** X16. The in-memory list and the registry move together and only
    grow: over any run, the names appended to [Databases] are exactly the
    names passed to [AddNewDB], in the same order, and nothing is ever
    removed from either; the prefix, the whitelist and the import flag
    are never changed; the history is only appended to. *)
Theorem registry_append_only (sched : list Action) (s s' : System) :
  run sched s = Some s' ->
  (exists l, Databases (dw s') = (Databases (dw s) ++ l)%list /\
             Meta (dw s') = (Meta (dw s) ++ l)%list) /\
  pre (dw s') = pre (dw s) /\
  ImportWl (dw s') = ImportWl (dw s) /\
  Whitelist (dw s') = Whitelist (dw s) /\
  (exists h, history s' = (history s ++ h)%list).
Proof.
  intros Hrun.
  destruct (run_effects sched s s' Hrun)
    as [Hl [_ [Hh [[Hp [Hi Hw]] _]]]].
  repeat split; assumption.
Qed.

Lemma registry_append_only_witness :
  run clean_shutdown (boot (New sample_cfg [])) = Some quiet_state /\
  exists l,
    Databases (dw quiet_state)
    = (Databases (dw (boot (New sample_cfg []))) ++ l)%list /\
    Meta (dw quiet_state) = (Meta (dw (boot (New sample_cfg []))) ++ l)%list.
Proof.
  assert (H : run clean_shutdown (boot (New sample_cfg [])) = Some quiet_state)
    by (vm_compute; reflexivity).
  split; [exact H|].
  apply (registry_append_only clean_shutdown (boot (New sample_cfg []))
           quiet_state H).
Defined.

(** X17. Closing is final: once the channel is closed, over any run it
    stays closed and no document is enqueued any more (a [Write] that
    reaches its send panics instead). *)
Theorem closed_channel_is_final (sched : list Action) (s s' : System) :
  run sched s = Some s' ->
  Chan.closed (wchan (dw s)) = true ->
  Chan.closed (wchan (dw s')) = true /\
  enqueued s' = enqueued s.
Proof.
  intros Hrun Hc.
  destruct (run_effects sched s s' Hrun)
    as [_ [[e [He He0]] [_ [_ [Hcl _]]]]].
  split; [exact (Hcl Hc)|].
  rewrite He, (He0 Hc), app_nil_r. reflexivity.
Qed.

Lemma closed_channel_is_final_witness :
  run [ActWriteRegister other_doc; ActWriteSend 0] quiet_state
  = Some late_write_state /\
  Chan.closed (wchan (dw quiet_state)) = true /\
  Chan.closed (wchan (dw late_write_state)) = true /\
  enqueued late_write_state = enqueued quiet_state.
Proof.
  assert (H : run [ActWriteRegister other_doc; ActWriteSend 0] quiet_state
              = Some late_write_state) by (vm_compute; reflexivity).
  assert (Hc : Chan.closed (wchan (dw quiet_state)) = true) by reflexivity.
  split; [exact H | split; [exact Hc |]].
  apply (closed_channel_is_final
           [ActWriteRegister other_doc; ActWriteSend 0]
           quiet_state late_write_state H Hc).
Defined.

(* ----------------------------------------------------------------- *)
(** ** The filter over a whole run                                    *)
(* ----------------------------------------------------------------- *)

Lemma Start_history (count : Z) (s : System) :
  history (Start count s) = history s.
Proof.
  unfold Start. destruct (negb (started (dw s))); [|reflexivity].
  rewrite Start_loop_eq. reflexivity.
Qed.

(** X18. Because the subject of the filter is a constant, the filter is
    all or nothing.  A writer whose whitelist matches that constant, with
    the import override off, never inserts anything: in every reachable
    state every finished iteration is empty (no insert, no log, no
    sleep) and the carried error of every worker is [nil]. *)
Theorem filtering_writer_inserts_nothing
        (cfg : Resources) (dbs : list string) (s : System) :
  isWhitelisted (CfgWhitelist cfg) filter_subject = true ->
  ImportWhitelist cfg = false ->
  reachable cfg dbs s ->
  (forall i evs, In (i, evs) (history s) -> evs = []) /\
  (forall w, In w (workers s) -> worker_err w = None).
Proof.
  intros Hwl Himp Hr.
  split; [|exact (carried_error_nil_when_filtering cfg dbs s Hwl Himp Hr)].
  induction Hr as [|s a s' Hr IH E]; [intros i evs []|].
  pose proof (reachable_Inv cfg dbs s Hr) as H.
  pose proof (carried_error_nil_when_filtering cfg dbs s Hwl Himp Hr) as Herr.
  destruct (exec_cases a s s' E)
    as [[count ->] | [[count ->] | [[l ->] | [[l ->] | [[doc ->]
       | [[n [doc [c' [Hn [Hs ->]]]]] | [[msg ->]
       | [[c' [Hc ->]] | [[Hwg ->]
       | [ins [w [w' [s1 [l1 [l2 [Hws [Hst ->]]]]]]]]]]]]]]]]];
    try exact IH.
  - rewrite Start_history. exact IH.
  - unfold Start_enter. destruct (negb (started (dw s))); exact IH.
  - simpl.
    destruct (worker_step_effects _ _ _ _ _ Hst)
      as [_ [_ [_ [_ [_ [_ [-> | [err [idx [d [-> [_ ->]]]]]]]]]]]];
      [exact IH|].
    assert (He : worker_err (WHolding err idx d) = None)
      by (apply Herr; rewrite Hws; apply in_elt).
    simpl in He. subst err.
    rewrite writeLoop_body_filtered_nil;
      [| rewrite (inv_whitelist H); exact Hwl
       | rewrite (inv_importwl H); exact Himp ].
    intros i evs Hin. apply in_app_or in Hin.
    destruct Hin as [Hin | [Eq | []]]; [exact (IH i evs Hin)|].
    injection Eq as _ <-. reflexivity.
Qed.

Lemma filtering_writer_witness :
  isWhitelisted (CfgWhitelist filtering_cfg) filter_subject = true /\
  ImportWhitelist filtering_cfg = false /\
  reachable filtering_cfg [] filtered_state /\
  history filtered_state = [(0%nat, [])] /\
  (forall i evs, In (i, evs) (history filtered_state) -> evs = []).
Proof.
  assert (Hr : reachable filtering_cfg [] filtered_state).
  { apply (run_reachable filtering_cfg [] clean_shutdown
                         (boot (New filtering_cfg []))).
    - apply reach_boot.
    - vm_compute. reflexivity. }
  split; [reflexivity | split; [reflexivity | split; [exact Hr |]]].
  split; [reflexivity|].
  apply (filtering_writer_inserts_nothing filtering_cfg [] filtered_state
           eq_refl eq_refl Hr).
Defined.

(** X19. Conversely, a writer whose whitelist does not match the
    constant, or whose import override is on, applies no filter at all:
    in every reachable state every finished iteration begins with an
    insert of the request's own document. *)
Theorem unfiltered_writer_inserts_everything
        (cfg : Resources) (dbs : list string) (s : System) :
  isWhitelisted (CfgWhitelist cfg) filter_subject = false \/
  ImportWhitelist cfg = true ->
  reachable cfg dbs s ->
  forall i evs,
    In (i, evs) (history s) ->
    exists doc res rest,
      nth_error (enqueued s) i = Some doc /\
      evs = EvInsert doc res :: rest.
Proof.
  intros Hgate Hr i evs Hin.
  pose proof (reachable_Inv2 cfg dbs s Hr) as H2.
  destruct (inv2_history H2 i evs Hin)
    as [doc [Hnth [d [err [ins [Hw [Hi ->]]]]]]].
  exists doc, (ins 0%nat). unfold writeLoop_body, writeLoop_insert.
  rewrite Hw, Hi.
  destruct Hgate as [-> | ->];
    [| destruct (isWhitelisted (CfgWhitelist cfg) filter_subject)];
    eexists; (split; [exact Hnth | reflexivity]).
Qed.

Lemma unfiltered_writer_witness :
  (isWhitelisted (CfgWhitelist sample_cfg) filter_subject = false \/
   ImportWhitelist sample_cfg = true) /\
  reachable sample_cfg [] quiet_state /\
  forall i evs,
    In (i, evs) (history quiet_state) ->
    exists doc res rest,
      nth_error (enqueued quiet_state) i = Some doc /\
      evs = EvInsert doc res :: rest.
Proof.
  assert (Hg : isWhitelisted (CfgWhitelist sample_cfg) filter_subject = false \/
               ImportWhitelist sample_cfg = true) by (left; reflexivity).
  split; [exact Hg | split; [exact quiet_state_reachable |]].
  apply (unfiltered_writer_inserts_everything sample_cfg [] quiet_state
           Hg quiet_state_reachable).
Defined.

(* ----------------------------------------------------------------- *)
(** ** A whole session with one producer and one worker               *)
(* ----------------------------------------------------------------- *)

Lemma run_app (l1 l2 : list Action) (s : System) :
  run (l1 ++ l2) s =
  match run l1 s with
  | Some s1 => run l2 s1
  | None => None
  end.
Proof.
  revert s; induction l1 as [|a l1 IH]; intros s; simpl; [reflexivity|].
  destruct (exec a s); [apply IH | reflexivity].
Qed.

Lemma stored_history_pre (d d' : DocWriter) (k : nat) (docs : list Document) :
  pre d = pre d' -> stored_history d k docs = stored_history d' k docs.
Proof.
  intros Hp. revert k; induction docs as [|doc rest IH]; intros k; simpl;
    [reflexivity|].
  unfold prefixed. rewrite Hp, IH. reflexivity.
Qed.

Lemma map_prefixed_pre (d d' : DocWriter) (docs : list Document) :
  pre d = pre d' -> map (prefixed d) docs = map (prefixed d') docs.
Proof.
  intros Hp. apply map_ext. intros doc. unfold prefixed. rewrite Hp.
  reflexivity.
Qed.

Lemma first_insert_stores (ins : InsertResults) (d : DocWriter)
      (doc : Document) :
  ins 0%nat = None ->
  negb (isWhitelisted (Whitelist d) filter_subject) || ImportWl d = true ->
  writeLoop_body d None doc ins = (None, [EvInsert doc None]).
Proof.
  intros Hins Hgate. unfold writeLoop_body, writeLoop_insert.
  destruct (isWhitelisted (Whitelist d) filter_subject); simpl in Hgate;
    [rewrite Hgate|]; rewrite Hins; reflexivity.
Qed.

Section OneWorker.

Variables (p : string) (iw : bool) (wl : StringSlice) (g : Z) (st : bool)
          (fl : FlushState).

Lemma session_register (doc : Document) (meta dbl : list string)
      (w : Worker) (enq : list Document) (nd : nat)
      (hist : list (nat * list Event)) :
  exists meta' dbl',
    exec (ActWriteRegister doc)
         (mkSystem (session_dw p iw wl g st [] meta dbl) [w] [] fl None
                   enq nd hist [])
    = Some (mkSystem (session_dw p iw wl g st [] meta' dbl') [w]
                     [mkDocument (Doc doc) (p ++ DB doc) (Coll doc)]
                     fl None enq nd hist []).
Proof.
  unfold exec, Write_register, session_dw. cbn.
  destruct (seen_loop dbl (p ++ DB doc) false); cbn;
    do 2 eexists; reflexivity.
Qed.

Lemma session_send (d0 : Document) (meta dbl : list string)
      (w : Worker) (enq : list Document) (nd : nat)
      (hist : list (nat * list Event)) :
  exec (ActWriteSend 0)
       (mkSystem (session_dw p iw wl g st [] meta dbl) [w] [d0] fl None
                 enq nd hist [])
  = Some (mkSystem (session_dw p iw wl g st [d0] meta dbl) [w] [] fl None
                   (enq ++ [d0]) nd hist []).
Proof. reflexivity. Qed.

Lemma session_receive (ins : InsertResults) (d0 : Document)
      (meta dbl : list string) (enq : list Document) (nd : nat)
      (hist : list (nat * list Event)) :
  exec (ActWorker 0 ins)
       (mkSystem (session_dw p iw wl g st [d0] meta dbl) [WReading None] []
                 fl None enq nd hist [])
  = Some (mkSystem (session_dw p iw wl g st [] meta dbl)
                   [WHolding None nd d0] [] fl None enq (S nd) hist []).
Proof. reflexivity. Qed.

Lemma session_store (ins : InsertResults) (d0 : Document)
      (meta dbl : list string) (enq : list Document) (nd k : nat)
      (hist : list (nat * list Event)) :
  ins 0%nat = None ->
  negb (isWhitelisted wl filter_subject) || iw = true ->
  exec (ActWorker 0 ins)
       (mkSystem (session_dw p iw wl g st [] meta dbl) [WHolding None k d0]
                 [] fl None enq nd hist [])
  = Some (mkSystem (session_dw p iw wl g st [] meta dbl) [WReading None] []
                   fl None enq nd (hist ++ [(k, [EvInsert d0 None])]) []).
Proof.
  intros Hins Hgate. unfold exec. cbn.
  rewrite (first_insert_stores ins (session_dw p iw wl g st [] meta dbl) d0
             Hins Hgate).
  reflexivity.
Qed.

(** The middle of the session: the worker is waiting at the receive on an
    empty open channel; each document is written, received and stored. *)
Lemma serve_all (ins : InsertResults) (docs : list Document) :
  ins 0%nat = None ->
  negb (isWhitelisted wl filter_subject) || iw = true ->
  forall (meta dbl : list string) (enq : list Document) (nd : nat)
         (hist : list (nat * list Event)),
    exists meta' dbl',
      run (flat_map (serve_one ins) docs)
          (mkSystem (session_dw p iw wl g st [] meta dbl) [WReading None] []
                    fl None enq nd hist [])
      = Some
          (mkSystem (session_dw p iw wl g st [] meta' dbl') [WReading None]
             [] fl None
             (enq ++ map (prefixed (session_dw p iw wl g st [] meta dbl)) docs)
             (nd + List.length docs)
             (hist ++ stored_history (session_dw p iw wl g st [] meta dbl)
                                     nd docs)
             []).
Proof.
  intros Hins Hgate. induction docs as [|doc rest IH];
    intros meta dbl enq nd hist.
  - exists meta, dbl. simpl. rewrite !app_nil_r, Nat.add_0_r. reflexivity.
  - destruct (session_register doc meta dbl (WReading None) enq nd hist)
      as [meta1 [dbl1 E1]].
    destruct (IH meta1 dbl1
                 (enq ++ [mkDocument (Doc doc) (p ++ DB doc) (Coll doc)])%list
                 (S nd)
                 (hist ++ [(nd, [EvInsert (mkDocument (Doc doc) (p ++ DB doc)
                                             (Coll doc)) None])])%list)
      as [meta' [dbl' E2]].
    exists meta', dbl'.
    change (flat_map (serve_one ins) (doc :: rest))
      with (serve_one ins doc ++ flat_map (serve_one ins) rest)%list.
    rewrite run_app. unfold serve_one. cbn [run].
    rewrite E1, session_send, session_receive,
      (session_store ins _ _ _ _ _ _ _ Hins Hgate).
    cbv beta iota. refine (eq_trans E2 _).
    rewrite (map_prefixed_pre (session_dw p iw wl g st [] meta1 dbl1)
               (session_dw p iw wl g st [] meta dbl)) by reflexivity.
    rewrite (stored_history_pre (session_dw p iw wl g st [] meta1 dbl1)
               (session_dw p iw wl g st [] meta dbl)) by reflexivity.
    cbn [map stored_history List.length].
    rewrite <- !app_assoc. cbn [app]. rewrite Nat.add_succ_r.
    reflexivity.
Qed.

End OneWorker.

(** X20. One producer, one worker, a database that accepts every first
    insert, and no filter in force: [Start(1)], then each document
    written and handled in turn, then [Flush].  Whatever the documents
    and however many, the session runs to the return of [Flush] without
    blocking or panicking, the worker has stopped, the WaitGroup counter
    is back at 0, the channel is empty, and the history shows every
    document stored exactly once, in the order of the [Write] calls,
    under its prefixed database name. *)
Theorem single_worker_session_stores_all
        (cfg : Resources) (dbs : list string) (ins : InsertResults)
        (docs : list Document) :
  ins 0%nat = None ->
  negb (isWhitelisted (CfgWhitelist cfg) filter_subject)
  || ImportWhitelist cfg = true ->
  exists s',
    run (single_worker_session ins docs) (boot (New cfg dbs)) = Some s' /\
    flush s' = FlushReturned /\
    panicked s' = None /\
    workers s' = [WStopped] /\
    wg (dw s') = 0 /\
    Chan.buf (wchan (dw s')) = [] /\
    enqueued s' = map (prefixed (New cfg dbs)) docs /\
    history s' = stored_history (New cfg dbs) 0 docs.
Proof.
  intros Hins Hgate. unfold single_worker_session.
  rewrite run_app.
  assert (E1 : run [ActStart 1; ActWorker 0 ins] (boot (New cfg dbs))
               = Some (mkSystem
                         (session_dw (DBPrefix cfg) (ImportWhitelist cfg)
                            (CfgWhitelist cfg) 1 true [] [] dbs)
                         [WReading None] [] FlushNotCalled None [] 0%nat []
                         []))
    by reflexivity.
  rewrite E1. cbv beta iota. rewrite run_app.
  destruct (serve_all (DBPrefix cfg) (ImportWhitelist cfg) (CfgWhitelist cfg)
              1 true FlushNotCalled ins docs Hins Hgate [] dbs [] 0%nat [])
    as [meta' [dbl' E2]].
  rewrite E2. cbv beta iota.
  eexists. split; [reflexivity|].
  cbn [flush panicked workers dw wg wchan Chan.buf enqueued history
       set_flush set_dw set_wg set_workers set_wchan update_nth app].
  repeat split;
    first [ apply map_prefixed_pre; reflexivity
          | apply stored_history_pre; reflexivity ].
Qed.

Lemma single_worker_session_witness :
  always_ok 0%nat = None /\
  negb (isWhitelisted (CfgWhitelist sample_cfg) filter_subject)
  || ImportWhitelist sample_cfg = true /\
  exists s',
    run (single_worker_session always_ok [sample_doc; other_doc])
        (boot (New sample_cfg [])) = Some s' /\
    flush s' = FlushReturned /\
    panicked s' = None /\
    workers s' = [WStopped] /\
    wg (dw s') = 0 /\
    Chan.buf (wchan (dw s')) = [] /\
    enqueued s' = map (prefixed (New sample_cfg [])) [sample_doc; other_doc] /\
    history s' = stored_history (New sample_cfg []) 0 [sample_doc; other_doc].
Proof.
  split; [reflexivity | split; [reflexivity |]].
  apply (single_worker_session_stores_all sample_cfg [] always_ok
           [sample_doc; other_doc] eq_refl eq_refl).
Defined.

(* ----------------------------------------------------------------- *)
(** ** The session the workers share                                  *)
(* ----------------------------------------------------------------- *)

Lemma worker_step_session (ins : InsertResults) (w w' : Worker)
      (s s1 : System) :
  worker_step ins w s = Some (w', s1) ->
  (left_loop w = true -> left_loop w' = true) /\
  (Ssn (dw s1) = Ssn (dw s) /\ is_stopped w' = false \/
   Ssn (dw s1) = SessionClosed /\ left_loop w' = true).
Proof.
  destruct w; simpl.
  - intros E; injection E as <- <-.
    split; [discriminate | left; split; reflexivity].
  - destruct (Chan.recv (wchan (dw s))); intros E; try discriminate;
      injection E as <- <-; (split; [discriminate | left; split; reflexivity]).
  - destruct (Ssn (dw s)) eqn:Hs;
      [destruct (writeLoop_body (dw s) err doc ins)|];
      intros E; injection E as <- <-;
      (split; [discriminate | left; split; [simpl; auto | reflexivity]]).
  - intros E; injection E as <- <-.
    split; [reflexivity | right; split; reflexivity].
  - discriminate.
Qed.

Lemma session_closed_iff_left (cfg : Resources) (dbs : list string)
      (s : System) :
  reachable cfg dbs s ->
  (Ssn (dw s) = SessionClosed ->
   exists w, In w (workers s) /\ left_loop w = true) /\
  (forall w, In w (workers s) -> is_stopped w = true ->
             Ssn (dw s) = SessionClosed).
Proof.
  induction 1 as [|s a s' Hr [IH1 IH2] E].
  - split; [discriminate | intros w []].
  - assert (Hgrow : forall ws,
              (forall w, In w ws -> w = WSpawned) ->
              (Ssn (dw s) = SessionClosed ->
               exists w, In w (workers s ++ ws) /\ left_loop w = true) /\
              (forall w, In w (workers s ++ ws) -> is_stopped w = true ->
                         Ssn (dw s) = SessionClosed)).
    { intros ws Hws. split.
      - intros Hc. destruct (IH1 Hc) as [w [Hin Hl]]. exists w.
        split; [apply in_or_app; left; exact Hin | exact Hl].
      - intros w Hin Hst. apply in_app_or in Hin.
        destruct Hin as [Hin | Hin]; [exact (IH2 w Hin Hst)|].
        rewrite (Hws w Hin) in Hst. discriminate. }
    destruct (exec_cases a s s' E)
      as [[count ->] | [[count ->] | [[l ->] | [[l ->] | [[doc ->]
         | [[n [doc [c' [Hn [Hs ->]]]]] | [[msg ->]
         | [[c' [Hc ->]] | [[Hwg ->]
         | [ins [w [w' [s1 [l1 [l2 [Hws [Hst ->]]]]]]]]]]]]]]]]];
      try (split; [exact IH1 | exact IH2]).
    + unfold Start. destruct (negb (started (dw s)));
        [|split; [exact IH1 | exact IH2]].
      rewrite Start_loop_eq. simpl. apply Hgrow.
      intros w Hw. apply repeat_spec in Hw. exact Hw.
    + unfold Start_enter. destruct (negb (started (dw s)));
        split; first [exact IH1 | exact IH2].
    + simpl. apply Hgrow. intros w [<- | []]. reflexivity.
    + destruct (Write_register_spec doc (dw s)) as [new [Hreg _]].
      rewrite Hreg. simpl. split; [exact IH1 | exact IH2].
    + simpl.
      pose proof (worker_step_workers _ _ _ _ _ Hst) as Hw1.
      destruct (worker_step_session _ _ _ _ _ Hst) as [Hkeep Hcase].
      split.
      * intros Hc.
        destruct Hcase as [[Hsame _] | [_ Hl]].
        -- rewrite Hsame in Hc. destruct (IH1 Hc) as [y [Hy Hly]].
           rewrite Hws in Hy. apply in_app_or in Hy.
           destruct Hy as [Hy | [<- | Hy]].
           ++ exists y. split; [apply in_or_app; left; exact Hy | exact Hly].
           ++ exists w'. split; [apply in_elt | exact (Hkeep Hly)].
           ++ exists y. split; [|exact Hly].
              apply in_or_app. right. right. exact Hy.
        -- exists w'. split; [apply in_elt | exact Hl].
      * intros y Hy Hsty.
        destruct Hcase as [[Hsame Hns] | [Hcl _]]; [|exact Hcl].
        rewrite Hsame.
        destruct (In_replaced l1 l2 w w' y Hy) as [-> | Hin].
        -- rewrite Hns in Hsty. discriminate.
        -- apply (IH2 y); [rewrite Hws; exact Hin | exact Hsty].
Qed.

Lemma update_nth_same {A : Type} (i : nat) (l : list A) (x : A) :
  nth_error l i = Some x -> update_nth i x l = l.
Proof.
  revert i; induction l as [|h t IH]; intros [|i] H; simpl in *;
    try discriminate.
  - injection H as ->. reflexivity.
  - rewrite (IH i H). reflexivity.
Qed.

(** X21. The workers share the session [d.Ssn], and the first worker to
    leave its loop closes it (line 164).  In every reachable state the
    session is closed only if some worker has left its loop, and it is
    closed once a worker has stopped.  A worker that has received a
    request and comes to handle it when the session is closed panics at
    [d.Ssn.Copy()] ("Session already closed"), whatever the database
    would answer: the request stays in its hands, nothing is added to the
    history, and no goroutine of the process runs afterwards. *)
Theorem shared_session_closed_by_first_leaver
        (cfg : Resources) (dbs : list string) (s : System) :
  reachable cfg dbs s ->
  (Ssn (dw s) = SessionClosed ->
   exists w, In w (workers s) /\ left_loop w = true) /\
  ((exists w, In w (workers s) /\ is_stopped w = true) ->
   Ssn (dw s) = SessionClosed) /\
  (forall i err idx doc ins,
      Ssn (dw s) = SessionClosed ->
      panicked s = None ->
      nth_error (workers s) i = Some (WHolding err idx doc) ->
      exists s',
        exec (ActWorker i ins) s = Some s' /\
        panicked s' = Some "Session already closed" /\
        workers s' = workers s /\
        history s' = history s /\
        request_held s' idx /\
        (forall a, exec a s' = None)).
Proof.
  intros Hr.
  destruct (session_closed_iff_left cfg dbs s Hr) as [H1 H2].
  split; [exact H1|].
  split; [intros [w [Hin Hst]]; exact (H2 w Hin Hst)|].
  intros i err idx doc ins Hc Hp Hn.
  pose proof (reachable_Inv2 cfg dbs s Hr) as I2.
  unfold exec. rewrite Hp, Hn. simpl. rewrite Hc.
  eexists. split; [reflexivity|]. simpl.
  rewrite (update_nth_same _ _ _ Hn).
  repeat split.
  exists err, doc. simpl. split; [eapply nth_error_In; exact Hn|].
  apply (inv2_held I2 err). eapply nth_error_In. exact Hn.
Qed.

Lemma shared_session_witness :
  reachable sample_cfg [] orphaned_state /\
  workers orphaned_state
  = [WStopped; WHolding None 0 (prefixed (New sample_cfg []) sample_doc)] /\
  Ssn (dw orphaned_state) = SessionClosed /\
  exists s',
    exec (ActWorker 1 always_ok) orphaned_state = Some s' /\
    panicked s' = Some "Session already closed" /\
    workers s' = workers orphaned_state /\
    history s' = history orphaned_state /\
    request_held s' 0 /\
    (forall a, exec a s' = None).
Proof.
  assert (Hr : reachable sample_cfg [] orphaned_state).
  { apply (run_reachable sample_cfg [] early_leaver
                         (boot (New sample_cfg []))).
    - apply reach_boot.
    - vm_compute. reflexivity. }
  split; [exact Hr|].
  split; [reflexivity|].
  split; [reflexivity|].
  destruct (shared_session_closed_by_first_leaver
              sample_cfg [] orphaned_state Hr) as [_ [_ H3]].
  apply (H3 1%nat None 0%nat (prefixed (New sample_cfg []) sample_doc)
            always_ok); reflexivity.
Defined.

(* ----------------------------------------------------------------- *)
(** ** Calls of [Start] that overlap                                  *)
(* ----------------------------------------------------------------- *)

Lemma Start_loop_set_starting (n : nat) (l : list Starter) (s : System) :
  Start_loop n (set_starting l s) = set_starting l (Start_loop n s).
Proof.
  revert s; induction n as [|n IH]; intros s; [reflexivity|].
  simpl. change (spawn (set_starting l s)) with (set_starting l (spawn s)).
  apply IH.
Qed.

Lemma nth_error_middle {A : Type} (l1 l2 : list A) (x : A) :
  nth_error (l1 ++ x :: l2) (List.length l1) = Some x.
Proof. induction l1 as [|h t IH]; simpl; [reflexivity | exact IH]. Qed.

Lemma update_nth_middle {A : Type} (l1 l2 : list A) (x y : A) :
  update_nth (List.length l1) y (l1 ++ x :: l2) = (l1 ++ y :: l2)%list.
Proof.
  induction l1 as [|h t IH]; simpl; [reflexivity | rewrite IH; reflexivity].
Qed.

(** The loop of a call of [Start] that nothing gets in between. *)
Lemma Start_passes (n : nat) :
  forall (s : System) (l1 l2 : list Starter),
    panicked s = None ->
    starting s = (l1 ++ mkStarter n false :: l2)%list ->
    run (repeat (ActStartNext (List.length l1)) (2 * n)) s
    = Some (set_starting (l1 ++ mkStarter 0 false :: l2) (Start_loop n s)).
Proof.
  induction n as [|n IH]; intros s l1 l2 Hp Hst.
  - simpl. rewrite <- Hst. destruct s; reflexivity.
  - replace (2 * S n)%nat with (S (S (2 * n))) by lia.
    cbn [repeat run].
    unfold exec at 1. rewrite Hp, Hst, nth_error_middle.
    cbn [Start_next passes_left flag_assigned starting set_dw].
    rewrite Hst, update_nth_middle.
    unfold exec at 1.
    cbn [panicked set_starting set_dw starting]. rewrite Hp.
    rewrite nth_error_middle.
    cbn [Start_next passes_left flag_assigned starting set_workers
         set_starting set_dw].
    rewrite update_nth_middle.
    match goal with
    | |- run _ ?x = _ =>
        change x with (set_starting (l1 ++ mkStarter n false :: l2) (spawn s))
    end.
    rewrite (IH _ l1 l2); [|exact Hp | reflexivity].
    rewrite Start_loop_set_starting. reflexivity.
Qed.

(** X22. [Start] takes no lock.  A call that runs alone, statement by
    statement, does what [Start] does.  But two calls, [Start(n)] and
    [Start(m)], on a writer not yet started, that both make their test
    before either has assigned the flag, both run their loops: together
    they launch [max n 0 + max m 0] workers, and the flag is set when one
    of them launched a worker. *)
Theorem overlapping_Start_calls_add_up (n m : Z) (s : System) :
  panicked s = None ->
  started (dw s) = false ->
  starting s = [] ->
  run (stepwise_start 0 n) s
  = Some (set_starting [mkStarter 0 false] (Start n s)) /\
  exists s',
    run (overlapping_starts n m) s = Some s' /\
    workers s'
    = (workers s ++ repeat WSpawned (Z.to_nat n + Z.to_nat m))%list /\
    nworkers s' = (nworkers s + Z.to_nat n + Z.to_nat m)%nat /\
    (IsStarted (dw s') = true <-> 1 <= n \/ 1 <= m) /\
    panicked s' = None.
Proof.
  intros Hp Hs Hst.
  assert (E1 : exec (ActStartEnter n) s
               = Some (set_starting [mkStarter (Z.to_nat n) false] s)).
  { unfold exec, Start_enter. rewrite Hp, Hs, Hst. reflexivity. }
  split.
  - unfold stepwise_start. cbn [run]. rewrite E1.
    rewrite (Start_passes (Z.to_nat n) _ [] []); [|exact Hp | reflexivity].
    rewrite Start_loop_set_starting. unfold Start. rewrite Hs. reflexivity.
  - unfold overlapping_starts. cbn [app run]. rewrite E1.
    unfold exec at 1. cbn [panicked set_starting]. rewrite Hp.
    unfold Start_enter. cbn [dw set_starting starting]. rewrite Hs.
    cbn [negb app].
    rewrite run_app.
    rewrite (Start_passes (Z.to_nat n) _ [] [mkStarter (Z.to_nat m) false]);
      [|exact Hp | reflexivity].
    rewrite (Start_passes (Z.to_nat m) _ [mkStarter 0 false] []);
      [|rewrite !Start_loop_eq; exact Hp | reflexivity].
    eexists. split; [reflexivity|].
    rewrite !Start_loop_set_starting, !Start_loop_eq.
    unfold nworkers, IsStarted. simpl.
    rewrite <- app_assoc, <- repeat_app, !length_app, !repeat_length.
    repeat split; try lia; try exact Hp.
    + destruct (Z.to_nat m) eqn:Em; [|lia].
      destruct (Z.to_nat n) eqn:En; [|lia].
      rewrite Hs. discriminate.
    + intros Hnm.
      destruct (Z.to_nat m) eqn:Em; [|reflexivity].
      destruct (Z.to_nat n) eqn:En; [|reflexivity]. lia.
Qed.

Lemma overlapping_Start_witness :
  panicked (boot (New sample_cfg [])) = None /\
  started (dw (boot (New sample_cfg []))) = false /\
  starting (boot (New sample_cfg [])) = [] /\
  exists s',
    run (overlapping_starts 2 3) (boot (New sample_cfg [])) = Some s' /\
    workers s'
    = (workers (boot (New sample_cfg []))
       ++ repeat WSpawned (Z.to_nat 2 + Z.to_nat 3))%list /\
    nworkers s' = (nworkers (boot (New sample_cfg []))
                   + Z.to_nat 2 + Z.to_nat 3)%nat /\
    (IsStarted (dw s') = true <-> 1 <= 2 \/ 1 <= 3) /\
    panicked s' = None.
Proof.
  split; [reflexivity | split; [reflexivity | split; [reflexivity |]]].
  apply (overlapping_Start_calls_add_up 2 3 (boot (New sample_cfg []))
           eq_refl eq_refl eq_refl).
Defined.
